(** * Raster-to-vector rendering of the Koeppen-Geiger maps

    A shallow embedding of the vectorized SVG writers of the repository
    ([create_vector_koppen_svg.py], [create_final_scientific_koppen.py]) and of
    the label lookup of [koppen_with_labels.py], with the properties of the
    projection, the class loop, the area filters, the path serializer, the
    legend and the merge.  The embedding covers the class loop, the path
    serializer, the site markers and labels, the title boxes, the loop over
    the files of the three-panel layout and the legend loop; the constant
    headings and captions of the layout are left out.

    Numbers.  The scripts compute with Python floats; the embedding computes
    with exact rationals ([Q]), so every statement below is about the exact
    value of the expression the script evaluates.  Equality of rationals is
    [==] ([Qeq]).  The polygons of the examples on the area thresholds have
    coordinates on which the floating-point evaluation of the area gives the
    same comparison.

    Exceptions.  A Python exception is a [Raise] of the [result] type; a
    [try/except] is a match on it.

    Libraries.  [rasterio.features.shapes], [shapely.geometry.shape] and
    [shapely.ops.unary_union] are not code of the repository: the class loop
    takes them as the fields of a [Backend], and the properties of the loop
    hold for every backend.  The merge on its own is modelled in [Merger]. *)

From Stdlib Require Import ZArith QArith Qabs Qfield Lia Lqa String Ascii List Sorted DecimalString DecimalPos DecimalN.
From stdpp Require Import gmap strings list sorting.

Local Open Scope Q_scope.

(** ** Exceptions *)

Inductive exn : Type :=
| ZeroDivisionError
| UnboundLocalError (name : string)
| GEOSException (msg : string).

Definition exn_message (e : exn) : string :=
  match e with
  | ZeroDivisionError => "float division by zero"
  | UnboundLocalError name =>
      "local variable '" +:+ name +:+ "' referenced before assignment"
  | GEOSException msg => msg
  end.

Inductive result (A : Type) : Type :=
| Ok (a : A)
| Raise (e : exn).

Arguments Ok {A} a.
Arguments Raise {A} e.

#[global] Instance result_ret : MRet result := fun _ a => Ok a.

#[global] Instance result_bind : MBind result := fun _ _ f m =>
  match m with
  | Ok a => f a
  | Raise e => Raise e
  end.

(** ** Arithmetic of the scripts *)

(** [a / b] on Python floats: a zero divisor raises. *)
Definition py_div (a b : Q) : result Q :=
  if Qeq_bool b 0 then Raise ZeroDivisionError else Ok (a / b).

(** [a < b] and [a > b] as Python evaluates them, as booleans. *)
Definition Qlt_bool (a b : Q) : bool := negb (Qle_bool b a).

(** ** The coordinate projector

    [coords_to_svg(lon, lat, west, east, north, south, svg_width, svg_height)],
    the same text in every script that has it. *)

Definition coords_to_svg (lon lat west east north south svg_width svg_height : Q)
  : result (Q * Q) :=
  qx ← py_div (lon - west) (east - west);
  let x := qx * svg_width in
  qy ← py_div (north - lat) (north - south);
  let y := qy * svg_height in
  Ok (x, y).

(** The inverse linear transform of the projector, as the round-trip property
    of the specification words it: canvas coordinates back to degrees.  The
    repository has no such function. *)
Definition canvas_to_geo (x y west east north south svg_width svg_height : Q)
  : Q * Q :=
  (west + x / svg_width * (east - west),
   north - y / svg_height * (north - south)).

(** ** Polygons

    A shapely [Polygon]: the coordinates of its exterior ring and of its
    interior rings (holes).  A ring lists its first vertex again at the end.
    The empty polygon has no coordinates. *)

Definition Coord : Type := Q * Q.

Record Polygon : Type := mkPolygon {
  exterior : list Coord;
  interiors : list (list Coord)
}.

Definition is_empty (polygon : Polygon) : bool :=
  match exterior polygon with
  | [] => true
  | _ :: _ => false
  end.

(** Twice the signed area of a closed ring (the shoelace sum). *)
Fixpoint shoelace (ring : list Coord) : Q :=
  match ring with
  | (x1, y1) :: (((x2, y2) :: _) as rest) => (x1 * y2 - x2 * y1) + shoelace rest
  | _ => 0
  end.

Definition ring_area (ring : list Coord) : Q := Qabs (shoelace ring) / 2.

Definition Qsum (l : list Q) : Q := fold_right Qplus 0 l.

(** [polygon.area]: the area inside the exterior ring less the area of the
    holes. *)
Definition area (polygon : Polygon) : Q :=
  ring_area (exterior polygon) - Qsum (map ring_area (interiors polygon)).

(** ** Fixed-point formatting: [f"{x:.2f}"] and [f"{x:.1f}"]

    The value is rounded to [digits] decimals, a tie to the even neighbour,
    and a negative value keeps its sign also when it rounds to zero. *)

Definition round_half_even (q : Q) : Z :=
  let n := Qnum q in
  let d := Z.pos (Qden q) in
  let fl := (n / d)%Z in
  let r2 := (2 * (n mod d))%Z in
  if (r2 <? d)%Z then fl
  else if (d <? r2)%Z then (fl + 1)%Z
  else if Z.even fl then fl else (fl + 1)%Z.

Definition decimal (n : Z) : string :=
  NilZero.string_of_uint (N.to_uint (Z.to_N n)).

Fixpoint zeros (n : nat) : string :=
  match n with
  | O => ""
  | S n' => String "0" (zeros n')
  end.

Definition zfill (width : nat) (s : string) : string :=
  zeros (width - String.length s) +:+ s.

Definition format_fixed (digits : nat) (q : Q) : string :=
  let scale := (10 ^ Z.of_nat digits)%Z in
  let m := round_half_even (Qabs q * inject_Z scale) in
  let sign := if Qlt_bool q 0 then "-" else "" in
  let frac := match digits with
              | O => ""
              | S _ => "." +:+ zfill digits (decimal (m mod scale))
              end in
  sign +:+ decimal (m / scale) +:+ frac.

(** ** The path serializer *)

(** [" ".join(parts)] *)
Fixpoint join (sep : string) (parts : list string) : string :=
  match parts with
  | [] => ""
  | [s] => s
  | s :: rest => s +:+ sep +:+ join sep rest
  end.

(** [try: body except Exception as e: handler(e)] *)
Definition try_except {A : Type} (body : result A) (handler : exn -> A) : A :=
  match body with
  | Ok a => a
  | Raise e => handler e
  end.

(** The drawing frame a path is projected into: the window bounds and the
    canvas size, in the order [coords_to_svg] takes them. *)
Record Frame : Type := mkFrame {
  west : Q; east : Q; north : Q; south : Q;
  svg_width : Q; svg_height : Q
}.

Definition project (fr : Frame) (c : Coord) : result (Q * Q) :=
  coords_to_svg (fst c) (snd c) (west fr) (east fr) (north fr) (south fr)
    (svg_width fr) (svg_height fr).

(** One segment of the path string: [f"M {x:.2f} {y:.2f}"]. *)
Definition segment (digits : nat) (letter : string) (x y : Q) : string :=
  letter +:+ " " +:+ format_fixed digits x +:+ " " +:+ format_fixed digits y.

(** [enumerate(coords)] *)
Definition enumerate {A : Type} (l : list A) : list (nat * A) :=
  combine (seq 0 (length l)) l.

(** The loop [for i, (lon, lat) in enumerate(coords)] of [create_svg_path],
    from the accumulated [path_data]. *)
Fixpoint path_loop (digits : nat) (fr : Frame) (ics : list (nat * Coord))
    (path_data : list string) : result (list string) :=
  match ics with
  | [] => Ok path_data
  | (i, lonlat) :: rest =>
      xy ← project fr lonlat;
      let '(x, y) := xy in
      if Nat.eqb i 0
      then path_loop digits fr rest (path_data ++ [segment digits "M" x y])
      else path_loop digits fr rest (path_data ++ [segment digits "L" x y])
  end.

(** The body of the [try] of [create_svg_path]. *)
Definition create_svg_path_try (digits : nat) (polygon : Polygon) (fr : Frame)
  : result (option string) :=
  if is_empty polygon || Qlt_bool (area polygon) (1 # 1000) then Ok None
  else
    let coords := exterior polygon in
    match coords with
    | [] => Ok None
    | _ :: _ =>
        path_data ← path_loop digits fr (enumerate coords) [];
        let path_data := path_data ++ ["Z"%string] in
        Ok (Some (join " " path_data))
    end.

(** [create_svg_path] returns the path string or [None], paired here with
    the lines it prints.  [verbose] tells the two variants apart: the
    [except] branch of [create_vector_koppen_svg.py] prints the error, that
    of [create_final_scientific_koppen.py] is silent. *)
Definition create_svg_path_with (digits : nat) (verbose : bool)
    (polygon : Polygon) (fr : Frame) : option string * list string :=
  try_except
    (r ← create_svg_path_try digits polygon fr; Ok (r, []))
    (fun e =>
       (None,
        if verbose
        then ["Error creating SVG path: " +:+ exn_message e]
        else [])).

(** ** Rasters

    The window read from the GeoTIFF: a 2-D array of class codes ([data]) and
    the affine transform of the window. *)

Abbreviation Grid := (list (list Z)).

(** [data.shape], as [(height, width)]. *)
Definition grid_shape (data : Grid) : nat * nat :=
  (length data, match data with [] => O | row :: _ => length row end).

(** [data[r][c]], when the index is inside the array. *)
Definition grid_at (data : Grid) (r c : nat) : option Z :=
  row ← data !! r; row !! c.

Record Affine : Type := mkAffine {
  af_a : Q; af_b : Q; af_c : Q;
  af_d : Q; af_e : Q; af_f : Q
}.

(** [transform * (col, row)] *)
Definition affine_apply (t : Affine) (col row : Q) : Q * Q :=
  (af_a t * col + af_b t * row + af_c t,
   af_d t * col + af_e t * row + af_f t).

(** [west, north = transform * (0, 0)] and
    [east, south = transform * (width, height)]. *)
Definition window_frame (transform : Affine) (data : Grid) (svg_width svg_height : Q)
  : Frame :=
  let '(height, width) := grid_shape data in
  let '(west, north) := affine_apply transform 0 0 in
  let '(east, south) :=
    affine_apply transform (inject_Z (Z.of_nat width)) (inject_Z (Z.of_nat height)) in
  mkFrame west east north south svg_width svg_height.

(** [data[data > 0]]: the positive codes, in row-major order. *)
Definition positive_values (data : Grid) : list Z :=
  filter (fun v => (0 < v)%Z) (concat data).

Fixpoint insert_unique (v : Z) (l : list Z) : list Z :=
  match l with
  | [] => [v]
  | x :: rest =>
      if (v <? x)%Z then v :: l
      else if (v =? x)%Z then l
      else x :: insert_unique v rest
  end.

(** [np.unique(values)]: the distinct values, ascending. *)
Definition np_unique (values : list Z) : list Z :=
  fold_right insert_unique [] values.

Fixpoint insert_sorted (v : Z) (l : list Z) : list Z :=
  match l with
  | [] => [v]
  | x :: rest => if (v <? x)%Z then v :: l else x :: insert_sorted v rest
  end.

(** [sorted(values)] *)
Definition sorted (values : list Z) : list Z :=
  fold_right insert_sorted [] values.

(** [(data == climate_value).astype(np.uint8)] *)
Definition class_mask (data : Grid) (climate_value : Z) : Grid :=
  (fun row : list Z => (fun v => if (v =? climate_value)%Z then 1%Z else 0%Z) <$> row)
    <$> data.

(** ** The geometry libraries *)

(** What [unary_union] returns on polygons: a [Polygon], or a [MultiPolygon]
    (the only one of the two with a [geoms] attribute). *)
Inductive Geometry : Type :=
| GPolygon (p : Polygon)
| GMultiPolygon (geoms : list Polygon).

(** [rasterio.features.shapes(mask, mask=mask, transform=transform)] yields
    pairs [(geom, value)]; [shapely.geometry.shape(geom)] builds the polygon;
    [shapely.ops.unary_union(polygons)] merges.  The merge stands inside the
    [try] of both scripts and may raise; the other two are taken to
    return. *)
Record Backend : Type := mkBackend {
  GeoJSON : Type;
  shapes : Grid -> Affine -> list (GeoJSON * Z);
  shape : GeoJSON -> Polygon;
  unary_union : list Polygon -> result Geometry
}.

(** ** The drawing *)

(** [dwg.path(d=svg_path, fill=koppen_colors[climate_value], ...)], tagged
    with the class the loop was at when it added the path. *)
Record PathRecord : Type := mkPathRecord {
  pr_class : Z;
  pr_d : string;
  pr_fill : string
}.

(** What one iteration of the class loop leaves behind: the class, the mask
    it handed to [shapes], the list [polygons] after the loop over the
    generator, [merged_poly] when the merge ran and returned, the paths added
    to the drawing, and the lines printed. *)
Record Zone : Type := mkZone {
  zone_class : Z;
  zone_mask : Grid;
  zone_polygons : list Polygon;
  zone_merged : option Geometry;
  zone_paths : list PathRecord;
  zone_stdout : list string
}.

(** [str(n)] of an integer. *)
Definition py_str (n : Z) : string :=
  if (n <? 0)%Z then "-" +:+ decimal (- n) else decimal n.

(** Truth value of a string: [if svg_path:]. *)
Definition truthy (s : string) : bool :=
  match s with
  | EmptyString => false
  | String _ _ => true
  end.

(** ** The class loop

    [for climate_value in sorted(np.unique(data[data > 0])): ...], the same in
    [create_vectorized_svg] and in [create_optimized_scientific_layout] up to
    the colour table, the area threshold of the fragment filter, the number of
    decimals of the path, and what is printed. *)

Section ClassLoop.

Variable B : Backend.
Variable koppen_colors : gmap Z string.
(** [0.01] in [create_vectorized_svg], [0.005] in
    [create_optimized_scientific_layout]. *)
Variable min_area : Q.
Variable digits : nat.
Variable verbose : bool.
Variable error_prefix : string.

(** The loop over the generator:
    [if value == 1: poly = shape(geom); if poly.area > min_area: polygons.append(poly)]. *)
Definition collect_polygons (polygon_generator : list (GeoJSON B * Z))
  : list Polygon :=
  fold_left
    (fun polygons gv =>
       let '(geom, value) := gv in
       if (value =? 1)%Z then
         let poly := shape B geom in
         if Qlt_bool min_area (area poly) then polygons ++ [poly] else polygons
       else polygons)
    polygon_generator [].

(** [svg_path = create_svg_path(poly, ...); if svg_path: dwg.add(dwg.path(...))] *)
Definition add_path (climate_value : Z) (fill : string) (fr : Frame)
    (poly : Polygon) : list PathRecord * list string :=
  let '(svg_path, out) := create_svg_path_with digits verbose poly fr in
  match svg_path with
  | Some d =>
      if truthy d then ([mkPathRecord climate_value d fill], out) else ([], out)
  | None => ([], out)
  end.

(** The polygons the two branches of [if hasattr(merged_poly, 'geoms')]
    serialize. *)
Definition polygons_of (merged_poly : Geometry) : list Polygon :=
  match merged_poly with
  | GMultiPolygon geoms => geoms
  | GPolygon p => [p]
  end.

Definition add_paths (climate_value : Z) (fill : string) (fr : Frame)
    (polys : list Polygon) : list PathRecord * list string :=
  fold_left
    (fun acc poly =>
       let '(paths, out) := add_path climate_value fill fr poly in
       (fst acc ++ paths, snd acc ++ out))
    polys ([], []).

(** One iteration of the class loop; [None] when the guard
    [if climate_value in koppen_colors] fails and the iteration does
    nothing. *)
Definition process_zone (data : Grid) (transform : Affine) (fr : Frame)
    (climate_value : Z) : option Zone :=
  match koppen_colors !! climate_value with
  | None => None
  | Some fill =>
      let mask := class_mask data climate_value in
      let polygon_generator := shapes B mask transform in
      let polygons := collect_polygons polygon_generator in
      match polygons with
      | [] => Some (mkZone climate_value mask polygons None [] [])
      | _ :: _ =>
          Some
            (try_except
               (merged_poly ← unary_union B polygons;
                let '(paths, out) :=
                  add_paths climate_value fill fr (polygons_of merged_poly) in
                Ok (mkZone climate_value mask polygons (Some merged_poly) paths out))
               (fun e =>
                  mkZone climate_value mask polygons None []
                    [error_prefix +:+ py_str climate_value +:+ ": "
                     +:+ exn_message e]))
      end
  end.

Definition class_loop (data : Grid) (transform : Affine) (fr : Frame)
  : list Zone :=
  omap (process_zone data transform fr)
       (sorted (np_unique (positive_values data))).

End ClassLoop.

(** The paths of the drawing, in the order they were added. *)
Definition drawn_paths (zones : list Zone) : list PathRecord :=
  concat (map zone_paths zones).

(** The test of the loop over the generator, on one pair [(geom, value)]. *)
Definition kept (B : Backend) (min_area : Q) (gv : GeoJSON B * Z) : bool :=
  (snd gv =? 1)%Z && Qlt_bool min_area (area (shape B (fst gv))).

(** What an iteration of the class loop that passed the guard leaves in its
    [Zone]: a positive class of the raster with a colour, its mask, the
    fragments kept from [shapes] on that mask, their merge when it ran, and
    the paths of the polygons of the merge. *)
Definition zone_ok (B : Backend) (koppen_colors : gmap Z string) (min_area : Q)
    (digits : nat) (verbose : bool) (data : Grid) (transform : Affine)
    (fr : Frame) (z : Zone) : Prop :=
  exists fill,
    (0 < zone_class z)%Z
    /\ zone_class z ∈ concat data
    /\ koppen_colors !! zone_class z = Some fill
    /\ zone_mask z = class_mask data (zone_class z)
    /\ zone_polygons z = collect_polygons B min_area (shapes B (zone_mask z) transform)
    /\ (zone_polygons z = [] -> zone_merged z = None)
    /\ (zone_merged z = None -> zone_paths z = [])
    /\ (forall m, zone_merged z = Some m ->
          unary_union B (zone_polygons z) = Ok m
          /\ zone_paths z
             = fst (add_paths digits verbose (zone_class z) fill fr (polygons_of m))).

(** ** The overlay

    What the scripts add to the drawing besides the paths.  An element keeps
    its geometry, its text and its fill; the constant stroke, opacity and font
    attributes are not recorded. *)

Inductive Element : Type :=
| ERect (insert : Q * Q) (size : Q * Q) (fill : string)
| EPath (pr : PathRecord) (translate : option (Q * Q))
| ECircle (center : Q * Q) (r : Q) (fill : string)
| EText (text : string) (insert : Q * Q) (fill : string).

Record Site : Type := mkSite {
  site_name : string;
  site_lat : Q;
  site_lon : Q
}.

(** [study_sites], the same list in both scripts. *)
Definition study_sites : list Site :=
  [ mkSite "Cape Town" (-339249 # 10000) (184241 # 10000);
    mkSite "Mount Darwin" (-167833 # 10000) (315833 # 10000);
    mkSite "Blantyre" (-157870 # 10000) (350055 # 10000) ].

(** [len(s)] of a string of ASCII characters, as an integer. *)
Definition py_len (s : string) : Z := Z.of_nat (String.length s).

(** ** [create_vector_koppen_svg.py] *)

Module Vector.

Definition koppen_colors : gmap Z string :=
  list_to_map
    [ (1%Z, "#0000FF"); (2%Z, "#0078FF"); (3%Z, "#46AAFA"); (4%Z, "#FF0000");
      (5%Z, "#FF9696"); (6%Z, "#F5A500"); (7%Z, "#FFDC64"); (8%Z, "#FFFF00");
      (9%Z, "#C8C800"); (10%Z, "#969600"); (11%Z, "#96FF96"); (12%Z, "#64C864");
      (13%Z, "#329632"); (14%Z, "#C8FF50"); (15%Z, "#64FF50"); (16%Z, "#32C800");
      (17%Z, "#FF00FF"); (18%Z, "#C800C8"); (19%Z, "#963296"); (20%Z, "#966496");
      (21%Z, "#AABFFF"); (22%Z, "#5A78DC"); (23%Z, "#4B50B4"); (24%Z, "#320087");
      (25%Z, "#00FFFF"); (26%Z, "#37C8FF"); (27%Z, "#007D7D"); (28%Z, "#00465F");
      (29%Z, "#B2B2B2"); (30%Z, "#666666") ].

(** [svg_width, svg_height = 1200, 900] *)
Definition svg_width : Q := 1200.
Definition svg_height : Q := 900.

(** [if poly.area > 0.01:  # Filter out tiny polygons] *)
Definition min_area : Q := 1 # 100.

(** [create_svg_path] of this script: two decimals, the error printed. *)
Definition create_svg_path (polygon : Polygon) (fr : Frame)
  : option string * list string :=
  create_svg_path_with 2 true polygon fr.

Definition collect_polygons (B : Backend)
    (polygon_generator : list (GeoJSON B * Z)) : list Polygon :=
  collect_polygons B min_area polygon_generator.

(** The class loop of [create_vectorized_svg], on the raster window
    [(data, transform)] read from the file. *)
Definition create_vectorized_svg (B : Backend) (data : Grid) (transform : Affine)
  : list Zone :=
  class_loop B koppen_colors min_area 2 true "Error processing climate zone "
    data transform (window_frame transform data svg_width svg_height).

(** The body of [for site in study_sites]: the marker, and with
    [show_labels] the label box and the label.  The projection stands
    outside every [try]. *)
Definition site_elements (show_labels : bool) (fr : Frame) (site : Site)
  : result (list Element) :=
  xy ← project fr (site_lon site, site_lat site);
  let '(x, y) := xy in
  let marker := ECircle (x, y) 8 "#000" in
  if show_labels then
    let text_width := (py_len (site_name site) * 8)%Z in
    Ok [ marker;
         ERect (x - inject_Z (text_width / 2), y - 25) (inject_Z text_width, 18) "white";
         EText (site_name site) (x, y - 12) "#000" ]
  else Ok [marker].

(** The loop over the sites, from the drawing so far. *)
Fixpoint sites_loop (show_labels : bool) (fr : Frame) (sites : list Site)
    (dwg : list Element) : result (list Element) :=
  match sites with
  | [] => Ok dwg
  | site :: rest =>
      elements ← site_elements show_labels fr site;
      sites_loop show_labels fr rest (dwg ++ elements)
  end.

(** The title box and the title, centred on [svg_width // 2]. *)
Definition title_elements (title : string) : list Element :=
  let title_width := (py_len title * 12)%Z in
  [ ERect (inject_Z (1200 / 2 - title_width / 2), 5) (inject_Z title_width, 35) "white";
    EText title (inject_Z (1200 / 2), 28) "#333" ].

(** The whole of [create_vectorized_svg]: what the drawing holds at
    [dwg.save()], in the order added; a [Raise] leaves the function before
    the drawing is saved. *)
Definition svg_document (B : Backend) (data : Grid) (transform : Affine)
    (title : string) (show_sites show_labels : bool) : result (list Element) :=
  let fr := window_frame transform data svg_width svg_height in
  let dwg := [ERect (0, 0) (svg_width, svg_height) "#e6f3ff"] in
  let dwg :=
    dwg ++ map (fun pr => EPath pr None)
             (drawn_paths (create_vectorized_svg B data transform)) in
  dwg ← (if show_sites then sites_loop show_labels fr study_sites dwg else Ok dwg);
  Ok (dwg ++ title_elements title).

End Vector.

(** ** [create_final_scientific_koppen.py] *)

Module Final.

Definition koppen_colors : gmap Z string :=
  list_to_map
    [ (1%Z, "#0000FE"); (2%Z, "#0078FF"); (3%Z, "#46AAFA"); (4%Z, "#FF0000");
      (5%Z, "#FF9696"); (6%Z, "#F5A500"); (7%Z, "#FFDC64"); (8%Z, "#FFFF00");
      (9%Z, "#C8C800"); (10%Z, "#969600"); (11%Z, "#96FF96"); (12%Z, "#64C864");
      (13%Z, "#329632"); (14%Z, "#C8FF50"); (15%Z, "#64FF50"); (16%Z, "#32C800");
      (17%Z, "#FF00FF"); (18%Z, "#C800C8"); (19%Z, "#963296"); (20%Z, "#966496");
      (21%Z, "#AABFFF"); (22%Z, "#5A78DC"); (23%Z, "#4B50B4"); (24%Z, "#320087");
      (25%Z, "#00FFFF"); (26%Z, "#37C8FF"); (27%Z, "#007D7D"); (28%Z, "#00465F");
      (29%Z, "#B2B2B2"); (30%Z, "#666666") ].

(** The legend table, a dictionary read in insertion order: per group its
    name, its colour, and its items [(code, description, value)]. *)
Definition legend_data : list (string * (string * list (string * string * Z))) :=
  [ ("A - Tropical",
     ("#0078FF",
      [ ("Af", "Tropical rainforest", 1%Z);
        ("Am", "Tropical monsoon", 2%Z);
        ("Aw", "Tropical savannah", 3%Z) ]));
    ("B - Arid",
     ("#FF6B00",
      [ ("BWh", "Hot desert", 4%Z);
        ("BWk", "Cold desert", 5%Z);
        ("BSh", "Hot semi-arid", 6%Z);
        ("BSk", "Cold semi-arid", 7%Z) ]));
    ("C - Temperate",
     ("#32CD32",
      [ ("Csa", "Mediterranean hot summer", 8%Z);
        ("Csb", "Mediterranean warm summer", 9%Z);
        ("Cwa", "Humid subtropical", 11%Z);
        ("Cwb", "Subtropical highland", 12%Z);
        ("Cfa", "Humid subtropical", 14%Z);
        ("Cfb", "Oceanic", 15%Z) ]));
    ("D - Cold",
     ("#4682B4",
      [ ("Dwa", "Cold dry winter hot", 21%Z);
        ("Dwb", "Cold dry winter warm", 22%Z);
        ("Dfa", "Cold humid hot summer", 25%Z);
        ("Dfb", "Cold humid warm summer", 26%Z) ]));
    ("E - Polar",
     ("#808080",
      [ ("ET", "Tundra", 29%Z);
        ("EF", "Ice cap", 30%Z) ])) ].

(** [map_width, map_height = 600, 700] *)
Definition map_width : Q := 600.
Definition map_height : Q := 700.

(** [if poly.area > 0.005:  # Filter small artifacts] *)
Definition min_area : Q := 5 # 1000.

(** [create_svg_path] of this script: one decimal, a silent [except]. *)
Definition create_svg_path (polygon : Polygon) (fr : Frame)
  : option string * list string :=
  create_svg_path_with 1 false polygon fr.

(** The class loop of one panel of [create_optimized_scientific_layout]. *)
Definition panel (B : Backend) (data : Grid) (transform : Affine) : list Zone :=
  class_loop B koppen_colors min_area 1 false "Error processing zone "
    data transform (window_frame transform data map_width map_height).

(** One legend item: the swatch with its fill, the code and the
    description. *)
Record LegendEntry : Type := mkLegendEntry {
  le_group : string;
  le_code : string;
  le_description : string;
  le_value : Z;
  le_fill : string
}.

(** The legend loop:
    [for i, (group_name, group_info) in enumerate(legend_data.items()):
       for code, description, value in group_info['items']:
         if value in koppen_colors: ...]. *)
Definition legend : list LegendEntry :=
  flat_map
    (fun group =>
       let '(group_name, (_, items)) := group in
       flat_map
         (fun item =>
            let '(code, description, value) := item in
            match koppen_colors !! value with
            | Some fill => [mkLegendEntry group_name code description value fill]
            | None => []
            end)
         items)
    legend_data.

(** [top_margin], [side_margin], [map_spacing] and the canvas size. *)
Definition total_width : Q := 2000.
Definition total_height : Q := 1400.
Definition top_margin : Q := 80.
Definition side_margin : Q := 50.
Definition map_spacing : Q := 60.

(** [x_offset = side_margin + i * (map_width + map_spacing)], with [i] the
    position of the file in [tif_paths]. *)
Definition x_offset (i : nat) : Q :=
  side_margin + inject_Z (Z.of_nat i) * (map_width + map_spacing).

(** [y_offset = top_margin + 40] *)
Definition y_offset : Q := top_margin + 40.

(** The map border of panel [i]. *)
Definition panel_border (i : nat) : Element :=
  ERect (x_offset i - 2, y_offset - 2) (map_width + 4, map_height + 4) "none".

(** The body of [for site in study_sites] in panel [i]. *)
Definition site_elements (show_labels : bool) (fr : Frame) (i : nat) (site : Site)
  : result (list Element) :=
  xy ← project fr (site_lon site, site_lat site);
  let '(x, y) := xy in
  let marker := ECircle (x_offset i + x, y_offset + y) 8 "white" in
  if show_labels then
    let text_width := (py_len (site_name site) * 7)%Z in
    Ok [ marker;
         ERect (x_offset i + x - inject_Z (text_width / 2) - 3, y_offset + y - 25)
           (inject_Z (text_width + 6), 16) "white";
         EText (site_name site) (x_offset i + x, y_offset + y - 12) "black" ]
  else Ok [marker].

(** The loop over the sites of panel [i], from the drawing so far.  As in
    [create_vectorized_svg], the projection stands outside every [try]. *)
Fixpoint sites_loop (show_labels : bool) (fr : Frame) (i : nat)
    (sites : list Site) (dwg : list Element) : result (list Element) :=
  match sites with
  | [] => Ok dwg
  | site :: rest =>
      elements ← site_elements show_labels fr i site;
      sites_loop show_labels fr i rest (dwg ++ elements)
  end.

(** [titles], each as the two lines of [title.split('\n')], and
    [scenario_colors]. *)
Definition titles : list (string * string) :=
  [ ("Current Climate", "1991-2020 Baseline");
    ("Moderate Warming", "SSP1-2.6 2041-2070");
    ("Extreme Warming", "SSP1-2.6 2071-2099") ].

Definition scenario_colors : list string :=
  ["#27ae60"; "#f39c12"; "#e74c3c"].

(** The scenario title box of panel [i] and its two lines of text. *)
Definition title_elements (i : nat) (title_lines : string * string)
    (color : string) : list Element :=
  let title_box_height := 45 in
  let title_y := y_offset - title_box_height - 10 in
  [ ERect (x_offset i, title_y) (map_width, title_box_height) color;
    EText (fst title_lines) (x_offset i + inject_Z (600 / 2), title_y + 18) "white";
    EText (snd title_lines) (x_offset i + inject_Z (600 / 2), title_y + 35) "white" ].

(** What one iteration of the loop over the files adds: the position [i] of
    the file in [tif_paths], the zones of its class loop, and the elements of
    the panel in the order added. *)
Record Panel : Type := mkPanel {
  panel_index : nat;
  panel_zones : list Zone;
  panel_elements : list Element
}.

(** The body of the loop over the files, for a file that exists and whose
    window is [(data, transform)]: the border, the paths of the class loop
    translated to the panel, the sites when [show_sites], the title box. *)
Definition draw_panel (B : Backend) (show_sites show_labels : bool) (i : nat)
    (data : Grid) (transform : Affine) (title_lines : string * string)
    (color : string) : result Panel :=
  let fr := window_frame transform data map_width map_height in
  let zones := panel B data transform in
  let dwg := [panel_border i] in
  let dwg :=
    dwg ++ map (fun pr => EPath pr (Some (x_offset i, y_offset)))
             (drawn_paths zones) in
  dwg ← (if show_sites then sites_loop show_labels fr i study_sites dwg
         else Ok dwg);
  Ok (mkPanel i zones (dwg ++ title_elements i title_lines color)).

(** [for i, (tif_path, title, color) in enumerate(zip(tif_paths, titles,
    scenario_colors))], from the panels drawn so far.  A file that does not
    exist ([None]) is skipped by [continue]. *)
Fixpoint panels_loop (B : Backend) (show_sites show_labels : bool)
    (files : list (nat * (option (Grid * Affine) * ((string * string) * string))))
    (panels : list Panel) : result (list Panel) :=
  match files with
  | [] => Ok panels
  | (i, (tif, (title_lines, color))) :: rest =>
      match tif with
      | None => panels_loop B show_sites show_labels rest panels
      | Some (data, transform) =>
          p ← draw_panel B show_sites show_labels i data transform
                title_lines color;
          panels_loop B show_sites show_labels rest (panels ++ [p])
      end
  end.

(** What the drawing holds when it is saved: the panels and the legend.  The
    background, the headings and the citation, constant elements that no
    argument changes, are not recorded. *)
Record Layout : Type := mkLayout {
  layout_panels : list Panel;
  layout_legend : list LegendEntry
}.

(** The layout.  [tifs] are the files of [tif_paths], [None] for a path that
    does not exist.  The loop runs over [zip(tif_paths, titles,
    scenario_colors)], so over three files at most, and skips a missing one
    before it sets [y_offset]; the legend is placed from [y_offset], so with
    no panel at all that line raises and no legend is drawn.  An exception of
    the site loop leaves the function as well. *)
Definition create_optimized_scientific_layout (B : Backend)
    (tifs : list (option (Grid * Affine))) (show_sites show_labels : bool)
  : result Layout :=
  panels ← panels_loop B show_sites show_labels
              (enumerate (combine tifs (combine titles scenario_colors))) [];
  match panels with
  | [] => Raise (UnboundLocalError "y_offset")
  | _ :: _ => Ok (mkLayout panels legend)
  end.

(** The paths of a layout, in the order drawn. *)
Definition layout_paths (layout : Layout) : list PathRecord :=
  concat (map (fun p => drawn_paths (panel_zones p)) (layout_panels layout)).

(** The class codes of the paths of a layout. *)
Definition drawn_classes (layout : Layout) : list Z :=
  map pr_class (layout_paths layout).

(** The class codes of the legend of a layout, in the order drawn. *)
Definition legend_classes (layout : Layout) : list Z :=
  map le_value (layout_legend layout).

End Final.

(** ** [koppen_with_labels.py] *)

Module Labels.

Definition KOPPEN_MAPPING : gmap Z string :=
  list_to_map
    [ (1%Z, "Af - Tropical rainforest");
      (2%Z, "Am - Tropical monsoon");
      (3%Z, "Aw - Tropical savanna");
      (4%Z, "BWh - Hot desert");
      (5%Z, "BWk - Cold desert");
      (6%Z, "BSh - Hot semi-arid");
      (7%Z, "BSk - Cold semi-arid");
      (8%Z, "Csa - Mediterranean hot summer");
      (9%Z, "Csb - Mediterranean warm summer");
      (10%Z, "Csc - Mediterranean cool summer");
      (11%Z, "Cwa - Humid subtropical");
      (12%Z, "Cwb - Subtropical highland");
      (13%Z, "Cwc - Cold subtropical highland");
      (14%Z, "Cfa - Humid subtropical");
      (15%Z, "Cfb - Oceanic");
      (16%Z, "Cfc - Subpolar oceanic");
      (17%Z, "Dsa - Hot summer continental");
      (18%Z, "Dsb - Warm summer continental");
      (19%Z, "Dsc - Cool summer continental");
      (20%Z, "Dsd - Extremely cold continental");
      (21%Z, "Dwa - Hot summer humid continental");
      (22%Z, "Dwb - Warm summer humid continental");
      (23%Z, "Dwc - Cool summer humid continental");
      (24%Z, "Dwd - Extremely cold humid continental");
      (25%Z, "Dfa - Hot summer humid continental");
      (26%Z, "Dfb - Warm summer humid continental");
      (27%Z, "Dfc - Subarctic");
      (28%Z, "Dfd - Extremely cold subarctic");
      (29%Z, "ET - Tundra");
      (30%Z, "EF - Ice cap") ].

(** [KOPPEN_MAPPING.get(code, f"Unknown (GRIDCODE: {code})")] *)
Definition label (code : Z) : string :=
  default ("Unknown (GRIDCODE: " +:+ py_str code +:+ ")") (KOPPEN_MAPPING !! code).

(** [gdf_africa['GRIDCODE'].value_counts().sort_index()]: each distinct
    code with the number of its polygons, by ascending code. *)
Definition value_counts_sorted (gridcodes : list Z) : list (Z * nat) :=
  map (fun code => (code, count_occ Z.eq_dec gridcodes code)) (np_unique gridcodes).

(** The loop that fills [metadata["climate_zones"]]: the key [str(code)], the
    label and the polygon count, in the order written. *)
Definition climate_zones (gridcodes : list Z) : list (string * (string * nat)) :=
  map (fun cc => (py_str (fst cc), (label (fst cc), snd cc)))
      (value_counts_sorted gridcodes).

End Labels.

(** ** Concrete inputs

    The rasters, polygons and library answers the examples below run on. *)

(** A north-up transform with cells of one degree, the upper left corner of
    cell [(0, 0)] at [(10, -5)]. *)
Definition degree_cells : Affine := mkAffine 1 0 10 0 (-1) (-5).

(** The boundary square of the cell [(col, row)], as a closed ring. *)
Definition cell_square (transform : Affine) (col row : Z) : Polygon :=
  let '(x0, y0) := affine_apply transform (inject_Z col) (inject_Z row) in
  let '(x1, y1) := affine_apply transform (inject_Z (col + 1)) (inject_Z (row + 1)) in
  mkPolygon [(x0, y0); (x0, y1); (x1, y1); (x1, y0); (x0, y0)] [].

(** The libraries on a raster of one cell: a set cell is traced as its
    boundary square, with value 1; the union of one polygon is that
    polygon. *)
Definition one_cell_backend : Backend :=
  mkBackend Polygon
    (fun mask transform =>
       match mask with
       | [[1%Z]] => [(cell_square transform 0 0, 1%Z)]
       | _ => []
       end)
    (fun geom => geom)
    (fun polygons =>
       match polygons with
       | [p] => Ok (GPolygon p)
       | _ => Ok (GMultiPolygon polygons)
       end).

(** An axis-parallel rectangle, as a closed ring. *)
Definition rectangle (x0 y0 x1 y1 : Q) : list Coord :=
  [(x0, y0); (x1, y0); (x1, y1); (x0, y1); (x0, y0)].

(** A rectangle of width [0.01] and height [1] degree, with a corner at the
    origin: its area, [(0.01 * 1 + 0.01 * 1) / 2], is the threshold [0.01] of
    [create_vectorized_svg], in floating point as well as exactly. *)
Definition threshold_rectangle : Polygon :=
  mkPolygon (rectangle 0 0 (1 # 100) 1) [].

(** Two fragments that share an edge, each [3/32] degree wide and [1/16]
    degree high, of area [3/512] (about 0.0059), and their union, of area
    [3/256] (about 0.0117).  Every coordinate is a dyadic fraction. *)
Definition fragment_west : Polygon :=
  mkPolygon (rectangle 10 (-41 # 8) (323 # 32) (-81 # 16)) [].

Definition fragment_east : Polygon :=
  mkPolygon (rectangle (323 # 32) (-41 # 8) (163 # 16) (-81 # 16)) [].

Definition fragments_union : Polygon :=
  mkPolygon (rectangle 10 (-41 # 8) (163 # 16) (-81 # 16)) [].

(** A vectorizer that yields the two fragments, with any merge. *)
Definition fragments_backend (union : list Polygon -> result Geometry) : Backend :=
  mkBackend Polygon
    (fun _ _ => [(fragment_west, 1%Z); (fragment_east, 1%Z)])
    (fun geom => geom)
    union.

(** A square of side 10 degrees with a square hole of side 2, and the same
    square without the hole. *)
Definition square_with_hole : Polygon :=
  mkPolygon (rectangle 10 (-15) 20 (-5)) [rectangle 14 (-11) 16 (-9)].

Definition square_without_hole : Polygon :=
  mkPolygon (rectangle 10 (-15) 20 (-5)) [].

(** The window of the scripts: longitudes 10 to 40, latitudes -35 to -5, on
    the canvas of [create_vectorized_svg]. *)
Definition southern_africa : Frame := mkFrame 10 40 (-5) (-35) 1200 900.

(** ** The path grammar of the specification

    [MOVE(x,y) (LINE(x,y))* CLOSE] per sub-path, in canvas coordinates, and
    its rendering as SVG path data. *)

Inductive PathCommand : Type :=
| MOVE (x y : Q)
| LINE (x y : Q)
| CLOSE.

Definition serialize_command (digits : nat) (c : PathCommand) : string :=
  match c with
  | MOVE x y => "M " +:+ format_fixed digits x +:+ " " +:+ format_fixed digits y
  | LINE x y => "L " +:+ format_fixed digits x +:+ " " +:+ format_fixed digits y
  | CLOSE => "Z"
  end.

Definition serialize (digits : nat) (commands : list PathCommand) : string :=
  join " " (map (serialize_command digits) commands).

(** One sub-path: move to the first vertex, a line to each subsequent vertex,
    close. *)
Definition ring_commands (vertices : list (Q * Q)) : list PathCommand :=
  match vertices with
  | [] => []
  | v :: rest =>
      MOVE (fst v) (snd v) :: map (fun w => LINE (fst w) (snd w)) rest ++ [CLOSE]
  end.

(** The sub-paths of a polygon as the specification has them: the outer ring,
    then each hole. *)
Definition polygon_commands (outer : list (Q * Q)) (holes : list (list (Q * Q)))
  : list PathCommand :=
  ring_commands outer ++ flat_map ring_commands holes.

(** The canvas point of a geographic point, where the frame is not
    degenerate. *)
Definition canvas_point (fr : Frame) (c : Coord) : Q * Q :=
  ((fst c - west fr) / (east fr - west fr) * svg_width fr,
   (north fr - snd c) / (north fr - south fr) * svg_height fr).

(** ** The polygon merger on raster-aligned regions

    [unary_union] is a call into shapely, whose code the repository does not
    have.  For the properties of the merge itself the merger is modelled on
    the regions the vectorizer produces: unions of raster cells.  A region
    is a finite set of cells, a polygon is a region whose cells hang together
    edge to edge, and a polygon set is a list of regions. *)

Module Merger.

Abbreviation Cell := (Z * Z)%type.
Abbreviation Region := (gset (Z * Z)).

(** The four cells that share an edge with a cell. *)
Definition neighbours (c : Cell) : Region :=
  {[ (fst c + 1, snd c)%Z; (fst c - 1, snd c)%Z;
     (fst c, snd c + 1)%Z; (fst c, snd c - 1)%Z ]}.

(** One round of flood fill inside [r]: the cells of [r] that share an edge
    with a cell of [comp] join [comp]. *)
Definition grow (r comp : Region) : Region :=
  comp ∪ (r ∩ ⋃ (neighbours <$> elements comp)).

Fixpoint flood (rounds : nat) (r comp : Region) : Region :=
  match rounds with
  | O => comp
  | S n => flood n r (grow r comp)
  end.

(** The part of [r] that hangs together with [seed]. *)
Definition component (r : Region) (seed : Cell) : Region :=
  flood (size r) r {[ seed ]}.

Fixpoint components_fuel (fuel : nat) (r : Region) : list Region :=
  match fuel with
  | O => []
  | S n =>
      match elements r with
      | [] => []
      | seed :: _ =>
          let comp := component r seed in
          comp :: components_fuel n (r ∖ comp)
      end
  end.

(** The maximal edge-connected parts of a region. *)
Definition components (r : Region) : list Region :=
  components_fuel (size r) r.

(** Modelled from the spec: the Polygon Merger of section 4.3, which the
    scripts delegate to [shapely.ops.unary_union].  "Given the polygons
    belonging to one class, compute their geometric union, producing the
    minimal polygon set": the union of the input regions, split into its
    maximal connected parts. *)
Definition merge (polygons : list Region) : list Region :=
  components (⋃ polygons).

(** [c'] is reached from [c] inside [r], stepping from a cell to a cell that
    shares an edge with it. *)
Inductive reach (r : Region) (c : Cell) : Cell -> Prop :=
| reach_here : c ∈ r -> reach r c c
| reach_step (c' c'' : Cell) :
    reach r c c' -> c'' ∈ r -> c'' ∈ neighbours c' -> reach r c c''.

(** A region in one piece. *)
Definition connected (p : Region) : Prop :=
  forall c c', c ∈ p -> c' ∈ p -> reach p c c'.

(** Two regions that neither overlap nor share an edge. *)
Definition separated (p q : Region) : Prop :=
  p ## q /\ forall c c', c ∈ p -> c' ∈ q -> c' ∉ neighbours c.

(** An already-merged polygon set: every polygon is non-empty and in one
    piece, and no two of them overlap or share an edge. *)
Fixpoint merged (polygons : list Region) : Prop :=
  match polygons with
  | [] => True
  | p :: rest =>
      p <> ∅ /\ connected p /\ Forall (separated p) rest /\ merged rest
  end.

End Merger.

(** ** Reading a document

    The paths of a document, and its elements by kind. *)

Definition element_paths (doc : list Element) : list PathRecord :=
  flat_map (fun e => match e with EPath pr _ => [pr] | _ => [] end) doc.

Definition is_circle (e : Element) : bool :=
  match e with ECircle _ _ _ => true | _ => false end.

Definition is_rect (e : Element) : bool :=
  match e with ERect _ _ _ => true | _ => false end.

Definition is_text (e : Element) : bool :=
  match e with EText _ _ _ => true | _ => false end.

Definition count_elements (kind : Element -> bool) (doc : list Element) : nat :=
  length (List.filter kind doc).

(** A frame with no width or no height. *)
Definition degenerate (fr : Frame) : Prop :=
  east fr - west fr == 0 \/ north fr - south fr == 0.

(** A file of [create_optimized_scientific_layout] whose window has no
    width or no height. *)
Definition degenerate_window (tif : option (Grid * Affine)) : Prop :=
  match tif with
  | Some (data, transform) =>
      degenerate (window_frame transform data Final.map_width Final.map_height)
  | None => False
  end.

(** The panel of the file at position [i] of [tif_paths]: its position and
    the zones of its class loop; none for a file that does not exist. *)
Definition panel_of (B : Backend) (file : nat * option (Grid * Affine))
  : option (nat * list Zone) :=
  match snd file with
  | Some (data, transform) => Some (fst file, Final.panel B data transform)
  | None => None
  end.

(** * Properties *)

(** ** Arithmetic and projection *)

Lemma Qlt_bool_iff (a b : Q) : Qlt_bool a b = true <-> a < b.
Proof.
  unfold Qlt_bool. rewrite negb_true_iff, <- not_true_iff_false, Qle_bool_iff.
  split; [apply Qnot_le_lt | apply Qlt_not_le].
Qed.

Lemma Qlt_bool_false_iff (a b : Q) : Qlt_bool a b = false <-> b <= a.
Proof.
  unfold Qlt_bool. rewrite negb_false_iff. apply Qle_bool_iff.
Qed.

Lemma py_div_ok (a b : Q) : ~ b == 0 -> py_div a b = Ok (a / b).
Proof.
  intros Hb. unfold py_div.
  destruct (Qeq_bool b 0) eqn:E; [|reflexivity].
  apply Qeq_bool_iff in E. contradiction.
Qed.

Lemma Qlt_minus_nonzero (a b : Q) : a < b -> ~ b - a == 0.
Proof.
  intros Hlt Heq.
  assert (Hb : b == a) by (rewrite <- (Qplus_0_r a), <- Heq; ring).
  rewrite Hb in Hlt. exact (Qlt_irrefl _ Hlt).
Qed.

Lemma coords_to_svg_ok (lon lat west east north south W H : Q) :
  ~ east - west == 0 -> ~ north - south == 0 ->
  coords_to_svg lon lat west east north south W H
  = Ok ((lon - west) / (east - west) * W, (north - lat) / (north - south) * H).
Proof.
  intros Hx Hy. unfold coords_to_svg.
  rewrite (py_div_ok _ _ Hx). cbn.
  rewrite (py_div_ok _ _ Hy). reflexivity.
Qed.

Lemma coords_to_svg_degenerate (lon lat west east north south W H : Q) :
  east - west == 0 \/ north - south == 0 ->
  coords_to_svg lon lat west east north south W H = Raise ZeroDivisionError.
Proof.
  intros Hdeg. unfold coords_to_svg, py_div.
  destruct (Qeq_bool (east - west) 0) eqn:Ex; [reflexivity|]. cbn.
  destruct Hdeg as [Hx | Hy].
  - apply Qeq_bool_iff in Hx. congruence.
  - apply Qeq_bool_iff in Hy. now rewrite Hy.
Qed.

(** C1.  On a window with [west < east] and [south < north] and a canvas with
    [W > 0] and [H > 0], [coords_to_svg] does not raise and returns
    [((lon - west) / (east - west) * W, (north - lat) / (north - south) * H)];
    the northwest corner [(west, north)] goes to canvas [(0, 0)] and the
    southwest corner [(west, south)] to canvas [(0, H)]. *)
Theorem coords_to_svg_linear (lon lat west south east north W H : Q) :
  west < east -> south < north -> 0 < W -> 0 < H ->
  coords_to_svg lon lat west east north south W H
  = Ok ((lon - west) / (east - west) * W, (north - lat) / (north - south) * H)
  /\ (exists x y, coords_to_svg west north west east north south W H = Ok (x, y)
                  /\ x == 0 /\ y == 0)
  /\ (exists x y, coords_to_svg west south west east north south W H = Ok (x, y)
                  /\ x == 0 /\ y == H).
Proof.
  intros Hwe Hsn _ _.
  pose proof (Qlt_minus_nonzero _ _ Hwe) as Hx.
  pose proof (Qlt_minus_nonzero _ _ Hsn) as Hy.
  split; [now apply coords_to_svg_ok|].
  split; eexists; eexists; (split; [now apply coords_to_svg_ok|]).
  - split; field; assumption.
  - split; field; assumption.
Qed.

(** The canvas-inversion example of the specification: bounds [(0,0,10,10)],
    canvas [100 x 100]. *)
Lemma coords_to_svg_linear_witness :
  coords_to_svg 0 10 0 10 10 0 100 100
  = Ok ((0 - 0) / (10 - 0) * 100, (10 - 10) / (10 - 0) * 100)
  /\ (exists x y, coords_to_svg 0 10 0 10 10 0 100 100 = Ok (x, y)
                  /\ x == 0 /\ y == 0)
  /\ (exists x y, coords_to_svg 0 0 0 10 10 0 100 100 = Ok (x, y)
                  /\ x == 0 /\ y == 100).
Proof.
  apply (coords_to_svg_linear 0 10 0 0 10 10 100 100); reflexivity.
Defined.

(** C2.  Round trip: on a window with [west < east] and [south < north] and a
    canvas with [W > 0] and [H > 0], the inverse linear transform applied to
    the canvas point that [coords_to_svg] returns gives back [(lon, lat)],
    exactly over the rationals.  It holds for every point, inside the window
    or not. *)
Theorem coords_to_svg_round_trip (lon lat west south east north W H : Q) :
  west < east -> south < north -> 0 < W -> 0 < H ->
  exists x y,
    coords_to_svg lon lat west east north south W H = Ok (x, y)
    /\ fst (canvas_to_geo x y west east north south W H) == lon
    /\ snd (canvas_to_geo x y west east north south W H) == lat.
Proof.
  intros Hwe Hsn HW HH.
  pose proof (Qlt_minus_nonzero _ _ Hwe) as Hx.
  pose proof (Qlt_minus_nonzero _ _ Hsn) as Hy.
  assert (HW0 : ~ W == 0) by (intros E; rewrite E in HW; exact (Qlt_irrefl _ HW)).
  assert (HH0 : ~ H == 0) by (intros E; rewrite E in HH; exact (Qlt_irrefl _ HH)).
  eexists; eexists. split; [now apply coords_to_svg_ok|].
  unfold canvas_to_geo; cbn [fst snd].
  split; field; split; assumption.
Qed.

Lemma coords_to_svg_round_trip_witness :
  exists x y,
    coords_to_svg (184241 # 10000) (-339249 # 10000) 10 40 (-5) (-35) 1200 900
    = Ok (x, y)
    /\ fst (canvas_to_geo x y 10 40 (-5) (-35) 1200 900) == 184241 # 10000
    /\ snd (canvas_to_geo x y 10 40 (-5) (-35) 1200 900) == -339249 # 10000.
Proof.
  apply (coords_to_svg_round_trip (184241 # 10000) (-339249 # 10000)
           10 (-35) 40 (-5) 1200 900); reflexivity.
Defined.

(** ** Formatting, on examples *)

Example format_fixed_third : format_fixed 2 (1 # 3) = "0.33"%string.
Proof. reflexivity. Qed.

Example format_fixed_tie_even : format_fixed 1 (1 # 4) = "0.2"%string.
Proof. reflexivity. Qed.

Example format_fixed_tie_odd : format_fixed 1 (3 # 4) = "0.8"%string.
Proof. reflexivity. Qed.

Example format_fixed_negative_zero : format_fixed 2 (-1 # 1000) = "-0.00"%string.
Proof. reflexivity. Qed.

Example format_fixed_pad : format_fixed 2 (120005 # 100) = "1200.05"%string.
Proof. reflexivity. Qed.

(** ** The class codes of the loop *)

Lemma elem_of_insert_sorted (v x : Z) (l : list Z) :
  x ∈ insert_sorted v l <-> x = v \/ x ∈ l.
Proof.
  induction l as [|y l IH]; cbn.
  - rewrite list_elem_of_singleton, elem_of_nil. tauto.
  - destruct (v <? y)%Z.
    + rewrite !elem_of_cons. tauto.
    + rewrite !elem_of_cons, IH. tauto.
Qed.

Lemma elem_of_sorted (x : Z) (l : list Z) : x ∈ sorted l <-> x ∈ l.
Proof.
  induction l as [|y l IH]; cbn; [reflexivity|].
  rewrite elem_of_insert_sorted, IH, elem_of_cons. reflexivity.
Qed.

Lemma elem_of_insert_unique (v x : Z) (l : list Z) :
  x ∈ insert_unique v l <-> x = v \/ x ∈ l.
Proof.
  induction l as [|y l IH]; cbn.
  - rewrite list_elem_of_singleton, elem_of_nil. tauto.
  - destruct (v <? y)%Z; [rewrite !elem_of_cons; tauto|].
    destruct (v =? y)%Z eqn:E.
    + apply Z.eqb_eq in E. subst y. rewrite !elem_of_cons. tauto.
    + rewrite !elem_of_cons, IH. tauto.
Qed.

Lemma elem_of_np_unique (x : Z) (l : list Z) : x ∈ np_unique l <-> x ∈ l.
Proof.
  induction l as [|y l IH]; cbn; [reflexivity|].
  rewrite elem_of_insert_unique, IH, elem_of_cons. reflexivity.
Qed.

Lemma elem_of_positive_values (x : Z) (data : Grid) :
  x ∈ positive_values data <-> (0 < x)%Z /\ x ∈ concat data.
Proof. unfold positive_values. apply list_elem_of_filter. Qed.

(** The codes the loop visits are the positive codes of the raster. *)
Lemma elem_of_loop_classes (x : Z) (data : Grid) :
  x ∈ sorted (np_unique (positive_values data)) <-> (0 < x)%Z /\ x ∈ concat data.
Proof.
  rewrite elem_of_sorted, elem_of_np_unique. apply elem_of_positive_values.
Qed.

(** ** The mask of a class *)

Lemma grid_at_class_mask (data : Grid) (climate_value : Z) (r c : nat) :
  grid_at (class_mask data climate_value) r c
  = (fun v => if (v =? climate_value)%Z then 1%Z else 0%Z) <$> grid_at data r c.
Proof.
  unfold grid_at, class_mask.
  rewrite list_lookup_fmap.
  destruct (data !! r) as [row|]; cbn; [|reflexivity].
  apply list_lookup_fmap.
Qed.

Lemma class_mask_set (data : Grid) (climate_value : Z) (r c : nat) :
  grid_at (class_mask data climate_value) r c = Some 1%Z ->
  grid_at data r c = Some climate_value.
Proof.
  rewrite grid_at_class_mask.
  destruct (grid_at data r c) as [v|]; cbn; [|discriminate].
  destruct (v =? climate_value)%Z eqn:E; [|discriminate].
  apply Z.eqb_eq in E. now subst.
Qed.

(** ** The fragment filter *)

Section ClassLoopFacts.

Variable B : Backend.
Variable koppen_colors : gmap Z string.
Variable min_area : Q.
Variable digits : nat.
Variable verbose : bool.
Variable error_prefix : string.


Lemma collect_polygons_fold (gen : list (GeoJSON B * Z)) (acc : list Polygon) :
  fold_left
    (fun polygons gv =>
       let '(geom, value) := gv in
       if (value =? 1)%Z then
         let poly := shape B geom in
         if Qlt_bool min_area (area poly) then polygons ++ [poly] else polygons
       else polygons)
    gen acc
  = acc ++ map (fun gv => shape B (fst gv)) (List.filter (kept B min_area) gen).
Proof.
  revert acc. induction gen as [|[geom value] gen IH]; intros acc; cbn.
  - now rewrite app_nil_r.
  - rewrite IH. unfold kept at 2. cbn.
    destruct (value =? 1)%Z; cbn; [|reflexivity].
    destruct (Qlt_bool min_area (area (shape B geom))); cbn; [|reflexivity].
    now rewrite <- app_assoc.
Qed.

Lemma collect_polygons_filter (gen : list (GeoJSON B * Z)) :
  collect_polygons B min_area gen = map (fun gv => shape B (fst gv)) (List.filter (kept B min_area) gen).
Proof. unfold collect_polygons. now rewrite collect_polygons_fold. Qed.

Lemma elem_of_collect_polygons (gen : list (GeoJSON B * Z)) (p : Polygon) :
  p ∈ collect_polygons B min_area gen
  <-> exists geom, (geom, 1%Z) ∈ gen /\ shape B geom = p /\ min_area < area p.
Proof.
  rewrite collect_polygons_filter, list_elem_of_In, in_map_iff. split.
  - intros [[geom value] [Hp Hin]]. apply filter_In in Hin as [Hin Hk].
    unfold kept in Hk. cbn in *. apply andb_true_iff in Hk as [Hv Ha].
    apply Z.eqb_eq in Hv. subst value. apply Qlt_bool_iff in Ha.
    exists geom. rewrite list_elem_of_In. subst p. auto.
  - intros (geom & Hin & Hp & Ha). exists (geom, 1%Z). split; [exact Hp|].
    apply filter_In. split; [now apply list_elem_of_In|].
    unfold kept. cbn. subst p. now apply Qlt_bool_iff in Ha as ->.
Qed.

Lemma collect_polygons_above (gen : list (GeoJSON B * Z)) :
  Forall (fun p => min_area < area p) (collect_polygons B min_area gen).
Proof.
  apply Forall_forall. intros p Hp.
  apply elem_of_collect_polygons in Hp as (geom & _ & _ & Ha). exact Ha.
Qed.

(** *** Adding the paths of the merged polygons *)

Lemma add_paths_fold (cv : Z) (fill : string) (fr : Frame)
    (polys : list Polygon) (acc : list PathRecord * list string) :
  fold_left
    (fun acc poly =>
       let '(paths, out) := add_path digits verbose cv fill fr poly in
       (fst acc ++ paths, snd acc ++ out))
    polys acc
  = (fst acc ++ concat (map (fun poly => fst (add_path digits verbose cv fill fr poly)) polys),
     snd acc ++ concat (map (fun poly => snd (add_path digits verbose cv fill fr poly)) polys)).
Proof.
  revert acc. induction polys as [|poly polys IH]; intros [paths out]; cbn.
  - now rewrite !app_nil_r.
  - rewrite IH.
    destruct (add_path digits verbose cv fill fr poly) as [ps os]. cbn.
    now rewrite <- !app_assoc.
Qed.

Lemma add_paths_concat (cv : Z) (fill : string) (fr : Frame) (polys : list Polygon) :
  fst (add_paths digits verbose cv fill fr polys)
  = concat (map (fun poly => fst (add_path digits verbose cv fill fr poly)) polys).
Proof. unfold add_paths. now rewrite add_paths_fold. Qed.

Lemma elem_of_add_path (cv : Z) (fill : string) (fr : Frame) (poly : Polygon)
    (pr : PathRecord) :
  pr ∈ fst (add_path digits verbose cv fill fr poly)
  <-> exists d, fst (create_svg_path_with digits verbose poly fr) = Some d
                /\ truthy d = true /\ pr = mkPathRecord cv d fill.
Proof.
  unfold add_path.
  destruct (create_svg_path_with digits verbose poly fr) as [[d|] out]; cbn.
  - destruct (truthy d) eqn:Ht; cbn.
    + rewrite list_elem_of_singleton. split.
      * intros ->. now exists d.
      * intros (d' & Hd & _ & ->). congruence.
    + rewrite elem_of_nil. split; [tauto|].
      intros (d' & Hd & Ht' & _). congruence.
  - rewrite elem_of_nil. split; [tauto|]. intros (d' & Hd & _). discriminate.
Qed.

Lemma elem_of_add_paths (cv : Z) (fill : string) (fr : Frame)
    (polys : list Polygon) (pr : PathRecord) :
  pr ∈ fst (add_paths digits verbose cv fill fr polys)
  <-> exists poly d,
        poly ∈ polys
        /\ fst (create_svg_path_with digits verbose poly fr) = Some d
        /\ truthy d = true /\ pr = mkPathRecord cv d fill.
Proof.
  rewrite add_paths_concat, list_elem_of_In, in_concat. split.
  - intros (ps & Hps & Hpr). apply in_map_iff in Hps as (poly & <- & Hpoly).
    apply list_elem_of_In, elem_of_add_path in Hpr as (d & Hd & Ht & ->).
    exists poly, d. now rewrite list_elem_of_In.
  - intros (poly & d & Hpoly & Hd & Ht & ->).
    exists (fst (add_path digits verbose cv fill fr poly)). split.
    + apply in_map_iff. exists poly. now rewrite <- list_elem_of_In.
    + apply list_elem_of_In, elem_of_add_path. now exists d.
Qed.

(** *** One iteration of the class loop *)

Lemma process_zone_inv (data : Grid) (transform : Affine) (fr : Frame)
    (cv : Z) (z : Zone) :
  process_zone B koppen_colors min_area digits verbose error_prefix
    data transform fr cv = Some z ->
  exists fill,
    koppen_colors !! cv = Some fill
    /\ zone_class z = cv
    /\ zone_mask z = class_mask data cv
    /\ zone_polygons z = collect_polygons B min_area (shapes B (zone_mask z) transform)
    /\ (zone_polygons z = [] -> zone_merged z = None)
    /\ (zone_merged z = None -> zone_paths z = [])
    /\ (forall m, zone_merged z = Some m ->
          unary_union B (zone_polygons z) = Ok m
          /\ zone_paths z
             = fst (add_paths digits verbose cv fill fr (polygons_of m))).
Proof.
  unfold process_zone.
  destruct (koppen_colors !! cv) as [fill|]; [|discriminate].
  intros Hz. exists fill. split; [reflexivity|].
  destruct (collect_polygons B min_area (shapes B (class_mask data cv) transform))
    as [|p polys] eqn:Hc.
  - injection Hz as <-. cbn. rewrite Hc.
    repeat split; try reflexivity; congruence.
  - destruct (unary_union B (p :: polys)) as [m|e] eqn:Hu; cbn in Hz.
    + destruct (add_paths digits verbose cv fill fr (polygons_of m))
        as [paths out] eqn:Hp.
      injection Hz as <-. cbn. rewrite Hc.
      split; [reflexivity|]. split; [reflexivity|]. split; [reflexivity|].
      split; [discriminate|]. split; [discriminate|].
      intros m' [= <-]. split; [exact Hu | now rewrite Hp].
    + injection Hz as <-. cbn. rewrite Hc.
      repeat split; try reflexivity; congruence.
Qed.

Lemma elem_of_class_loop (data : Grid) (transform : Affine) (fr : Frame)
    (z : Zone) :
  z ∈ class_loop B koppen_colors min_area digits verbose error_prefix
        data transform fr
  <-> exists cv, (0 < cv)%Z /\ cv ∈ concat data
                 /\ process_zone B koppen_colors min_area digits verbose error_prefix
    data transform fr cv = Some z.
Proof.
  unfold class_loop. rewrite list_elem_of_omap. split.
  - intros (cv & Hcv & Hz). apply elem_of_loop_classes in Hcv as [Hpos Hin].
    now exists cv.
  - intros (cv & Hpos & Hin & Hz). exists cv. split; [|exact Hz].
    now apply elem_of_loop_classes.
Qed.

End ClassLoopFacts.

(** ** The path serializer *)

Lemma project_ok (fr : Frame) (c : Coord) :
  ~ east fr - west fr == 0 -> ~ north fr - south fr == 0 ->
  project fr c = Ok (canvas_point fr c).
Proof. intros Hx Hy. unfold project, canvas_point. now apply coords_to_svg_ok. Qed.

Lemma project_degenerate (fr : Frame) (c : Coord) :
  east fr - west fr == 0 \/ north fr - south fr == 0 ->
  project fr c = Raise ZeroDivisionError.
Proof. intros H. unfold project. now apply coords_to_svg_degenerate. Qed.

(** From the second vertex on, the loop appends one line-to per vertex. *)
Lemma path_loop_lines (digits : nat) (fr : Frame) (coords : list Coord) :
  ~ east fr - west fr == 0 -> ~ north fr - south fr == 0 ->
  forall (k : nat) (path_data : list string),
    path_loop digits fr (combine (seq (S k) (length coords)) coords) path_data
    = Ok (path_data
          ++ map (fun c => serialize_command digits
                             (LINE (fst (canvas_point fr c)) (snd (canvas_point fr c))))
               coords).
Proof.
  intros Hx Hy. induction coords as [|c coords IH]; intros k path_data; cbn.
  - now rewrite app_nil_r.
  - rewrite (project_ok fr c Hx Hy). cbn.
    rewrite IH, <- app_assoc. reflexivity.
Qed.

Lemma path_loop_enumerate (digits : nat) (fr : Frame) (c : Coord) (coords : list Coord) :
  ~ east fr - west fr == 0 -> ~ north fr - south fr == 0 ->
  path_loop digits fr (enumerate (c :: coords)) []
  = Ok (map (serialize_command digits)
          (MOVE (fst (canvas_point fr c)) (snd (canvas_point fr c))
           :: map (fun w => LINE (fst w) (snd w)) (map (canvas_point fr) coords))).
Proof.
  intros Hx Hy. unfold enumerate. cbn.
  rewrite (project_ok fr c Hx Hy). cbn.
  rewrite (path_loop_lines digits fr coords Hx Hy). cbn.
  now rewrite !map_map.
Qed.

Lemma path_loop_raises (digits : nat) (fr : Frame) (i : nat) (c : Coord)
    (rest : list (nat * Coord)) (path_data : list string) :
  east fr - west fr == 0 \/ north fr - south fr == 0 ->
  path_loop digits fr ((i, c) :: rest) path_data = Raise ZeroDivisionError.
Proof. intros H. cbn. now rewrite (project_degenerate fr c H). Qed.

Lemma create_svg_path_try_guard (digits : nat) (polygon : Polygon) (fr : Frame) :
  is_empty polygon = true \/ area polygon < 1 # 1000 ->
  create_svg_path_try digits polygon fr = Ok None.
Proof.
  intros H. unfold create_svg_path_try.
  destruct (is_empty polygon); [reflexivity|].
  destruct H as [H|H]; [discriminate|].
  apply Qlt_bool_iff in H. now rewrite H.
Qed.

Lemma create_svg_path_try_path (digits : nat) (polygon : Polygon) (fr : Frame) :
  is_empty polygon = false -> 1 # 1000 <= area polygon ->
  ~ east fr - west fr == 0 -> ~ north fr - south fr == 0 ->
  create_svg_path_try digits polygon fr
  = Ok (Some (serialize digits
                (ring_commands (map (canvas_point fr) (exterior polygon))))).
Proof.
  intros Hne Harea Hx Hy. unfold create_svg_path_try.
  rewrite Hne. apply Qlt_bool_false_iff in Harea. rewrite Harea. cbn.
  unfold is_empty in Hne.
  destruct (exterior polygon) as [|c coords]; [discriminate|].
  rewrite (path_loop_enumerate digits fr c coords Hx Hy). cbn.
  unfold serialize. cbn [map ring_commands]. rewrite map_app. reflexivity.
Qed.

Lemma create_svg_path_try_raises (digits : nat) (polygon : Polygon) (fr : Frame) :
  is_empty polygon = false -> 1 # 1000 <= area polygon ->
  east fr - west fr == 0 \/ north fr - south fr == 0 ->
  create_svg_path_try digits polygon fr = Raise ZeroDivisionError.
Proof.
  intros Hne Harea Hdeg. unfold create_svg_path_try.
  rewrite Hne. apply Qlt_bool_false_iff in Harea. rewrite Harea. cbn.
  unfold is_empty in Hne.
  destruct (exterior polygon) as [|c coords]; [discriminate|].
  unfold enumerate. cbn [length seq combine].
  now rewrite (path_loop_raises digits fr 0 c _ [] Hdeg).
Qed.

(** A path string is never empty. *)
Lemma serialize_ring_truthy (digits : nat) (v : Q * Q) (rest : list (Q * Q)) :
  truthy (serialize digits (ring_commands (v :: rest))) = true.
Proof.
  unfold serialize. cbn [ring_commands map].
  destruct (map (serialize_command digits)
              (map (fun w => LINE (fst w) (snd w)) rest ++ [CLOSE])) eqn:E;
    reflexivity.
Qed.

(** Closed side conditions on rationals, by evaluation. *)
Ltac by_evaluation :=
  vm_compute;
  first [ reflexivity | discriminate | (let H := fresh in intros H; discriminate H) ].

(** C6, amended.  For a non-empty polygon of area at least 0.001, in a frame
    with [west <> east] and [north <> south], the path is the serialization of
    one move-to for the first vertex of the exterior ring, one line-to for
    each subsequent vertex of the exterior ring, and a close-path; nothing is
    printed.  The interior rings are not serialized: the right-hand side reads
    the exterior ring only. *)
Theorem create_svg_path_exterior_commands (digits : nat) (verbose : bool)
    (polygon : Polygon) (fr : Frame) :
  is_empty polygon = false -> 1 # 1000 <= area polygon ->
  ~ east fr - west fr == 0 -> ~ north fr - south fr == 0 ->
  create_svg_path_with digits verbose polygon fr
  = (Some (serialize digits
             (ring_commands (map (canvas_point fr) (exterior polygon)))),
     []).
Proof.
  intros Hne Harea Hx Hy. unfold create_svg_path_with.
  now rewrite (create_svg_path_try_path digits polygon fr Hne Harea Hx Hy).
Qed.

Lemma create_svg_path_exterior_commands_witness :
  Vector.create_svg_path square_with_hole southern_africa
  = (Some (serialize 2
             (ring_commands
                (map (canvas_point southern_africa) (exterior square_with_hole)))),
     []).
Proof.
  apply (create_svg_path_exterior_commands 2 true square_with_hole southern_africa);
    by_evaluation.
Defined.

(** C6 as stated fails: the polygon [square_with_hole] has one interior ring,
    and its path is the exterior sub-path alone, the same string as for the
    square without the hole, and not the two sub-paths of the grammar. *)
Lemma hole_ring_not_serialized :
  interiors square_with_hole = [rectangle 14 (-11) 16 (-9)]
  /\ fst (Vector.create_svg_path square_with_hole southern_africa)
     = Some "M 0.00 300.00 L 400.00 300.00 L 400.00 0.00 L 0.00 0.00 L 0.00 300.00 Z"%string
  /\ fst (Vector.create_svg_path square_without_hole southern_africa)
     = fst (Vector.create_svg_path square_with_hole southern_africa)
  /\ serialize 2
       (polygon_commands
          (map (canvas_point southern_africa) (exterior square_with_hole))
          (map (map (canvas_point southern_africa)) (interiors square_with_hole)))
     = ("M 0.00 300.00 L 400.00 300.00 L 400.00 0.00 L 0.00 0.00 L 0.00 300.00 Z "
        +:+ "M 160.00 180.00 L 240.00 180.00 L 240.00 120.00 L 160.00 120.00 L 160.00 180.00 Z")%string
  /\ fst (Vector.create_svg_path square_with_hole southern_africa)
     <> Some (serialize 2
                (polygon_commands
                   (map (canvas_point southern_africa) (exterior square_with_hole))
                   (map (map (canvas_point southern_africa))
                      (interiors square_with_hole)))).
Proof.
  split; [reflexivity|]. split; [vm_compute; reflexivity|].
  split; [vm_compute; reflexivity|]. split; [vm_compute; reflexivity|].
  vm_compute. discriminate.
Qed.

(** C10.  [create_svg_path] returns a non-empty path string or [None] and
    never raises: it returns [None], printing nothing, when the polygon is
    empty or its area is below 0.001; an exception inside the [try] gives
    [None] too, and a degenerate frame is such an exception.  In the class
    loop the test is a second area cutoff, applied to each polygon of the
    merge: one below 0.001 adds no path. *)
Theorem create_svg_path_total (digits : nat) (verbose : bool)
    (polygon : Polygon) (fr : Frame) :
  (fst (create_svg_path_with digits verbose polygon fr) = None
   \/ exists s, fst (create_svg_path_with digits verbose polygon fr) = Some s
                /\ truthy s = true)
  /\ (is_empty polygon = true \/ area polygon < 1 # 1000 ->
      create_svg_path_with digits verbose polygon fr = (None, []))
  /\ (forall e, create_svg_path_try digits polygon fr = Raise e ->
      fst (create_svg_path_with digits verbose polygon fr) = None)
  /\ (is_empty polygon = false -> 1 # 1000 <= area polygon ->
      east fr - west fr == 0 \/ north fr - south fr == 0 ->
      create_svg_path_try digits polygon fr = Raise ZeroDivisionError)
  /\ (forall (climate_value : Z) (fill : string),
      area polygon < 1 # 1000 ->
      add_path digits verbose climate_value fill fr polygon = ([], [])).
Proof.
  assert (Hguard : is_empty polygon = true \/ area polygon < 1 # 1000 ->
                   create_svg_path_with digits verbose polygon fr = (None, [])).
  { intros H. unfold create_svg_path_with.
    now rewrite (create_svg_path_try_guard digits polygon fr H). }
  split; [|split; [exact Hguard|split; [|split]]].
  - destruct (is_empty polygon) eqn:Hne; [left; rewrite Hguard; auto|].
    destruct (Qlt_le_dec (area polygon) (1 # 1000)) as [Hlt|Hle];
      [left; rewrite Hguard; auto|].
    destruct (Qeq_dec (east fr - west fr) 0) as [Hx|Hx].
    { left. unfold create_svg_path_with.
      now rewrite (create_svg_path_try_raises digits polygon fr Hne Hle (or_introl Hx)). }
    destruct (Qeq_dec (north fr - south fr) 0) as [Hy|Hy].
    { left. unfold create_svg_path_with.
      now rewrite (create_svg_path_try_raises digits polygon fr Hne Hle (or_intror Hy)). }
    right. unfold create_svg_path_with.
    rewrite (create_svg_path_try_path digits polygon fr Hne Hle Hx Hy). cbn.
    eexists. split; [reflexivity|].
    unfold is_empty in Hne.
    destruct (exterior polygon) as [|c coords]; [discriminate|].
    apply serialize_ring_truthy.
  - intros e He. unfold create_svg_path_with. now rewrite He.
  - apply create_svg_path_try_raises.
  - intros cv fill Hlt. unfold add_path. now rewrite Hguard by auto.
Qed.

(** ** The class loop *)

Section ClassLoopZones.

Variable B : Backend.
Variable koppen_colors : gmap Z string.
Variable min_area : Q.
Variable digits : nat.
Variable verbose : bool.
Variable error_prefix : string.
Variable data : Grid.
Variable transform : Affine.
Variable fr : Frame.

Let zones :=
  class_loop B koppen_colors min_area digits verbose error_prefix data transform fr.

Let zone_ok := zone_ok B koppen_colors min_area digits verbose data transform fr.

Lemma class_loop_zone_ok (z : Zone) : z ∈ zones -> zone_ok z.
Proof.
  intros Hz. apply elem_of_class_loop in Hz as (cv & Hpos & Hin & Hz).
  apply process_zone_inv in Hz
    as (fill & Hfill & Hclass & Hmask & Hpolys & Hnil & Hnone & Hmerged).
  exists fill. rewrite Hclass. auto 10.
Qed.

(** A path of a zone is the serialization of a polygon of the merge that
    passed the cutoff of [create_svg_path], tagged with the class of the
    zone and filled with its colour. *)
Lemma zone_path_inv (z : Zone) (pr : PathRecord) :
  zone_ok z -> pr ∈ zone_paths z ->
  exists m poly,
    zone_merged z = Some m
    /\ poly ∈ polygons_of m
    /\ 1 # 1000 <= area poly
    /\ fst (create_svg_path_with digits verbose poly fr) = Some (pr_d pr)
    /\ pr_class pr = zone_class z
    /\ koppen_colors !! zone_class z = Some (pr_fill pr).
Proof.
  intros (fill & _ & _ & Hfill & _ & _ & _ & Hnone & Hmerged) Hpr.
  destruct (zone_merged z) as [m|] eqn:Hm.
  - destruct (Hmerged m eq_refl) as [_ Hpaths]. rewrite Hpaths in Hpr.
    apply elem_of_add_paths in Hpr as (poly & d & Hpoly & Hd & _ & ->).
    exists m, poly. cbn. repeat split; auto.
    destruct (Qlt_le_dec (area poly) (1 # 1000)) as [Hlt|Hle]; [|exact Hle].
    unfold create_svg_path_with in Hd.
    rewrite (create_svg_path_try_guard digits poly fr (or_intror Hlt)) in Hd.
    discriminate.
  - rewrite (Hnone eq_refl) in Hpr. now apply elem_of_nil in Hpr.
Qed.

Lemma elem_of_drawn_paths (pr : PathRecord) :
  pr ∈ drawn_paths zones <-> exists z, z ∈ zones /\ pr ∈ zone_paths z.
Proof.
  unfold drawn_paths. rewrite list_elem_of_In, in_concat. split.
  - intros (ps & Hps & Hpr). apply in_map_iff in Hps as (z & <- & Hz).
    exists z. now rewrite !list_elem_of_In.
  - intros (z & Hz & Hpr). exists (zone_paths z).
    split; [apply in_map|]; now apply list_elem_of_In.
Qed.

(** A class with no colour has no zone. *)
Lemma class_loop_unmapped (code : Z) (z : Zone) :
  koppen_colors !! code = None -> z ∈ zones -> zone_class z <> code.
Proof.
  intros Hnone Hz Heq. apply class_loop_zone_ok in Hz as (fill & _ & _ & Hfill & _).
  congruence.
Qed.

(** A positive class of the raster that has a colour has a zone. *)
Lemma class_loop_mapped (code : Z) :
  (0 < code)%Z -> code ∈ concat data -> is_Some (koppen_colors !! code) ->
  exists z, z ∈ zones /\ zone_class z = code.
Proof.
  intros Hpos Hin [fill Hfill].
  destruct (process_zone B koppen_colors min_area digits verbose error_prefix
              data transform fr code) as [z|] eqn:Hz.
  - exists z. split.
    + apply elem_of_class_loop. now exists code.
    + now apply process_zone_inv in Hz as (_ & _ & Hclass & _).
  - unfold process_zone in Hz. rewrite Hfill in Hz.
    destruct (collect_polygons B min_area _); [discriminate|].
    discriminate.
Qed.

End ClassLoopZones.

(** ** The colour and label tables *)

Ltac not_in_explicit_list H :=
  repeat (apply elem_of_cons in H as [H|H]; [lia|]); now apply elem_of_nil in H.

Lemma vector_colors_unmapped (code : Z) :
  ~ (1 <= code <= 30)%Z -> Vector.koppen_colors !! code = None.
Proof.
  intros Hout. apply not_elem_of_list_to_map_1. cbn. intros H.
  not_in_explicit_list H.
Qed.

Lemma final_colors_unmapped (code : Z) :
  ~ (1 <= code <= 30)%Z -> Final.koppen_colors !! code = None.
Proof.
  intros Hout. apply not_elem_of_list_to_map_1. cbn. intros H.
  not_in_explicit_list H.
Qed.

Lemma final_colors_mapped (code : Z) :
  is_Some (Final.koppen_colors !! code) -> (1 <= code <= 30)%Z.
Proof.
  intros [fill Hfill].
  destruct (decide (1 <= code <= 30)%Z) as [Hin|Hout]; [exact Hin|].
  rewrite (final_colors_unmapped code Hout) in Hfill. discriminate.
Qed.

Lemma labels_unmapped (code : Z) :
  ~ (1 <= code <= 30)%Z -> Labels.KOPPEN_MAPPING !! code = None.
Proof.
  intros Hout. apply not_elem_of_list_to_map_1. cbn. intros H.
  not_in_explicit_list H.
Qed.

(** ** The claims on the class loop of [create_vectorized_svg] *)

(** C3.  The no-data code 0 is never vectorized.  In every iteration of the
    class loop of [create_vectorized_svg] the class is not 0; the mask handed
    to [shapes] is the mask of that class, so a cell holding 0 is unset in it
    and every set cell holds the class; the traced polygons are the ones kept
    from [shapes] on that mask; the merge is the merge of those; and every
    path added carries the class of its iteration.  So no path of the drawing
    belongs to class 0. *)
Theorem no_data_never_vectorized (B : Backend) (data : Grid) (transform : Affine) :
  let zones := Vector.create_vectorized_svg B data transform in
  Forall
    (fun z =>
       zone_class z <> 0%Z
       /\ zone_mask z = class_mask data (zone_class z)
       /\ (forall r c, grid_at data r c = Some 0%Z ->
                       grid_at (zone_mask z) r c = Some 0%Z)
       /\ (forall r c, grid_at (zone_mask z) r c = Some 1%Z ->
                       grid_at data r c = Some (zone_class z))
       /\ zone_polygons z
          = Vector.collect_polygons B (shapes B (zone_mask z) transform)
       /\ (forall m, zone_merged z = Some m ->
                     unary_union B (zone_polygons z) = Ok m)
       /\ Forall (fun pr => pr_class pr = zone_class z) (zone_paths z))
    zones
  /\ Forall (fun pr => pr_class pr <> 0%Z) (drawn_paths zones).
Proof.
  cbv zeta. unfold Vector.create_vectorized_svg.
  set (fr := window_frame transform data Vector.svg_width Vector.svg_height).
  split.
  - apply Forall_forall. intros z Hz.
    apply class_loop_zone_ok in Hz as Hok.
    pose proof Hok as (fill & Hpos & Hin & Hfill & Hmask & Hpolys & _ & _ & Hmerged).
    split; [lia|]. split; [exact Hmask|]. split; [|split; [|split; [|split]]].
    + intros r c H0. rewrite Hmask, grid_at_class_mask, H0.
      unfold fmap, option_fmap, option_map.
      destruct (Z.eqb_spec 0 (zone_class z)); [lia|reflexivity].
    + intros r c H1. rewrite Hmask in H1. now apply class_mask_set in H1.
    + exact Hpolys.
    + intros m Hm. now destruct (Hmerged m Hm).
    + apply Forall_forall. intros pr Hpr.
      now destruct (zone_path_inv _ _ _ _ _ _ _ _ z pr Hok Hpr)
        as (m & poly & _ & _ & _ & _ & Hclass & _).
  - apply Forall_forall. intros pr Hpr.
    apply elem_of_drawn_paths in Hpr as (z & Hz & Hpr).
    apply class_loop_zone_ok in Hz as Hok.
    destruct (zone_path_inv _ _ _ _ _ _ _ _ z pr Hok Hpr)
      as (m & poly & _ & _ & _ & _ & Hclass & _).
    destruct Hok as (fill & Hpos & _). lia.
Qed.

(** C4, amended.  The fragment filter of [create_vectorized_svg] is strict:
    a polygon is kept if and only if the generator yields it with value 1 and
    its area is greater than 0.01.  A polygon whose area is exactly the
    threshold is dropped, like one below it. *)
Theorem fragment_filter_strict (B : Backend) (gen : list (GeoJSON B * Z))
    (p : Polygon) :
  (p ∈ Vector.collect_polygons B gen
   <-> exists geom, (geom, 1%Z) ∈ gen /\ shape B geom = p /\ 1 # 100 < area p)
  /\ (forall geom,
        Vector.collect_polygons B [(geom, 1%Z)]
        = if Qlt_bool (1 # 100) (area (shape B geom)) then [shape B geom] else [])
  /\ (forall geom, area (shape B geom) == 1 # 100 ->
        Vector.collect_polygons B [(geom, 1%Z)] = []).
Proof.
  split; [apply elem_of_collect_polygons|].
  split.
  - intros geom. reflexivity.
  - intros geom Heq. unfold Vector.collect_polygons, collect_polygons. cbn.
    destruct (Qlt_bool Vector.min_area (area (shape B geom))) eqn:E; [|reflexivity].
    apply Qlt_bool_iff in E. unfold Vector.min_area in E. rewrite Heq in E.
    now apply Qlt_irrefl in E.
Qed.

(** C4 as stated fails: the rectangle from (0, 0) to (0.01, 1) has area
    exactly 0.01, the threshold, and the filter drops it. *)
Lemma threshold_polygon_dropped :
  exterior threshold_rectangle
  = [(0, 0); (1 # 100, 0); (1 # 100, 1); (0, 1); (0, 0)]
  /\ area threshold_rectangle == 1 # 100
  /\ Vector.collect_polygons one_cell_backend [(threshold_rectangle, 1%Z)] = [].
Proof. split; [reflexivity|]. split; vm_compute; reflexivity. Qed.

(** [create_svg_path] returns a path exactly for a non-empty polygon of
    area at least 0.001 in a frame that has a width and a height. *)
Lemma create_svg_path_with_Some (digits : nat) (verbose : bool)
    (polygon : Polygon) (fr : Frame) :
  (exists d, fst (create_svg_path_with digits verbose polygon fr) = Some d)
  <-> is_empty polygon = false /\ 1 # 1000 <= area polygon /\ ~ degenerate fr.
Proof.
  unfold degenerate. split.
  - intros [d Hd]. unfold create_svg_path_with in Hd.
    destruct (is_empty polygon) eqn:Hne.
    { rewrite (create_svg_path_try_guard digits polygon fr) in Hd by auto.
      discriminate. }
    destruct (Qlt_le_dec (area polygon) (1 # 1000)) as [Hlt|Hle].
    { rewrite (create_svg_path_try_guard digits polygon fr) in Hd by auto.
      discriminate. }
    split; [reflexivity|]. split; [exact Hle|]. intros Hdeg.
    rewrite (create_svg_path_try_raises digits polygon fr Hne Hle Hdeg) in Hd.
    discriminate.
  - intros (Hne & Hle & Hdeg). unfold create_svg_path_with.
    rewrite (create_svg_path_try_path digits polygon fr Hne Hle) by tauto.
    cbn. eauto.
Qed.

(** The path [create_svg_path] returns is not the empty string. *)
Lemma create_svg_path_with_truthy (digits : nat) (verbose : bool)
    (polygon : Polygon) (fr : Frame) (d : string) :
  fst (create_svg_path_with digits verbose polygon fr) = Some d -> truthy d = true.
Proof.
  intros Hd.
  destruct (proj1 (create_svg_path_with_Some digits verbose polygon fr))
    as (Hne & Hle & Hdeg); [eauto|].
  unfold degenerate in Hdeg. unfold create_svg_path_with in Hd.
  rewrite (create_svg_path_try_path digits polygon fr Hne Hle) in Hd by tauto.
  cbn in Hd. injection Hd as <-.
  unfold is_empty in Hne.
  destruct (exterior polygon) as [|c coords]; [discriminate|].
  apply serialize_ring_truthy.
Qed.

(** The test [if svg_path:] of the class loop lets every path through that
    [create_svg_path] returns: a polygon of the merge adds its path, or
    nothing when [create_svg_path] returns [None]. *)
Lemma add_path_drawn (digits : nat) (verbose : bool) (climate_value : Z)
    (fill : string) (fr : Frame) (poly : Polygon) :
  fst (add_path digits verbose climate_value fill fr poly)
  = match fst (create_svg_path_with digits verbose poly fr) with
    | Some d => [mkPathRecord climate_value d fill]
    | None => []
    end.
Proof.
  unfold add_path.
  pose proof (create_svg_path_with_truthy digits verbose poly fr) as Ht.
  destruct (create_svg_path_with digits verbose poly fr) as [[d|] out]; cbn in *.
  - now rewrite (Ht d eq_refl).
  - reflexivity.
Qed.

(** C5, amended.  In [create_vectorized_svg] the area filter runs before the
    merge and only there.  The list handed to [unary_union] holds only the
    traced fragments of area above 0.01; when no fragment passes, nothing is
    merged and nothing is drawn, whatever the union of the fragments would
    be.  After the merge no polygon is tested against 0.01 again: the paths
    of the zone are, in order, the paths [create_svg_path] returns for the
    polygons of the merge, each tagged with the class and filled with its
    colour, and [create_svg_path] returns a path for every non-empty polygon
    of area at least 0.001 (in a frame with a width and a height) and for no
    other. *)
Theorem filter_precedes_merge (B : Backend) (data : Grid) (transform : Affine) :
  let fr := window_frame transform data Vector.svg_width Vector.svg_height in
  Forall
    (fun z =>
       zone_polygons z
       = Vector.collect_polygons B (shapes B (zone_mask z) transform)
       /\ Forall (fun p => 1 # 100 < area p) (zone_polygons z)
       /\ (zone_polygons z = [] -> zone_merged z = None)
       /\ (zone_merged z = None -> zone_paths z = [])
       /\ (forall m, zone_merged z = Some m ->
             unary_union B (zone_polygons z) = Ok m
             /\ exists fill,
                  Vector.koppen_colors !! zone_class z = Some fill
                  /\ zone_paths z
                     = concat
                         (map
                            (fun poly =>
                               match fst (Vector.create_svg_path poly fr) with
                               | Some d => [mkPathRecord (zone_class z) d fill]
                               | None => []
                               end)
                            (polygons_of m))))
    (Vector.create_vectorized_svg B data transform)
  /\ (forall poly : Polygon,
        (exists d, fst (Vector.create_svg_path poly fr) = Some d)
        <-> is_empty poly = false /\ 1 # 1000 <= area poly /\ ~ degenerate fr).
Proof.
  cbv zeta. split; [|intros poly; apply create_svg_path_with_Some].
  unfold Vector.create_vectorized_svg.
  set (fr := window_frame transform data Vector.svg_width Vector.svg_height).
  apply Forall_forall. intros z Hz.
  apply class_loop_zone_ok in Hz as Hok.
  destruct Hok as (fill & _ & _ & Hfill & _ & Hpolys & Hnil & Hnone & Hmerged).
  split; [exact Hpolys|]. split; [|split; [exact Hnil|split; [exact Hnone|]]].
  - rewrite Hpolys. apply collect_polygons_above.
  - intros m Hm. destruct (Hmerged m Hm) as [Hunion Hpaths].
    split; [exact Hunion|]. exists fill. split; [exact Hfill|].
    rewrite Hpaths, add_paths_concat. f_equal.
    apply map_ext. intros poly. apply add_path_drawn.
Qed.

(** C5 as stated fails: two fragments that share an edge, each of area
    3/512, have a union of area 3/256, above the threshold; the loop drops
    both before any merge, so with every [unary_union] the class loop neither
    merges nor draws anything, although the union itself would pass the
    filter and would be drawn. *)
Lemma small_fragments_dropped_before_merge :
  area fragment_west == 3 # 512
  /\ area fragment_east == 3 # 512
  /\ area fragment_west < 1 # 100
  /\ area fragment_east < 1 # 100
  /\ area fragments_union == area fragment_west + area fragment_east
  /\ 1 # 100 < area fragments_union
  /\ (forall union : list Polygon -> result Geometry,
        Vector.create_vectorized_svg (fragments_backend union) [[3%Z]] degree_cells
        = [mkZone 3 [[1%Z]] [] None [] []])
  /\ Vector.collect_polygons one_cell_backend [(fragments_union, 1%Z)]
     = [fragments_union]
  /\ fst (Vector.create_svg_path fragments_union
            (window_frame degree_cells [[3%Z]] Vector.svg_width Vector.svg_height))
     = Some "M 0.00 112.50 L 225.00 112.50 L 225.00 56.25 L 0.00 56.25 L 0.00 112.50 Z"%string.
Proof.
  split; [reflexivity|]. split; [reflexivity|].
  split; [reflexivity|]. split; [reflexivity|]. split; [reflexivity|].
  split; [reflexivity|]. split; [intros union; vm_compute; reflexivity|].
  split; vm_compute; reflexivity.
Qed.

(** C7, amended.  A style lookup never fails, but the renderer has no default
    style: in [create_vectorized_svg] a class code with no entry in
    [koppen_colors] is skipped (it has no iteration and no path), every path
    drawn is filled with the table's colour of its class, and every positive
    class of the raster that has an entry has its iteration.  The fallback is
    in the metadata of [koppen_with_labels.py]: every code gets an entry, with
    the label ["Unknown (GRIDCODE: <code>)"] when [KOPPEN_MAPPING] has
    none.  Both tables have entries for 1..30 only. *)
Theorem unmapped_class_skipped (B : Backend) (data : Grid) (transform : Affine) :
  let zones := Vector.create_vectorized_svg B data transform in
  (forall code, Vector.koppen_colors !! code = None ->
     Forall (fun z => zone_class z <> code) zones
     /\ Forall (fun pr => pr_class pr <> code) (drawn_paths zones))
  /\ Forall (fun pr => Vector.koppen_colors !! pr_class pr = Some (pr_fill pr))
       (drawn_paths zones)
  /\ (forall code, (0 < code)%Z -> code ∈ concat data ->
        is_Some (Vector.koppen_colors !! code) ->
        exists z, z ∈ zones /\ zone_class z = code)
  /\ (forall (gridcodes : list Z) (code : Z), code ∈ gridcodes ->
        (py_str code,
         (Labels.label code, count_occ Z.eq_dec gridcodes code))
        ∈ Labels.climate_zones gridcodes)
  /\ (forall code, Labels.KOPPEN_MAPPING !! code = None ->
        Labels.label code = "Unknown (GRIDCODE: " +:+ py_str code +:+ ")")
  /\ (forall code, ~ (1 <= code <= 30)%Z ->
        Vector.koppen_colors !! code = None
        /\ Labels.KOPPEN_MAPPING !! code = None).
Proof.
  cbv zeta. unfold Vector.create_vectorized_svg.
  set (fr := window_frame transform data Vector.svg_width Vector.svg_height).
  assert (Hpath : forall pr,
            pr ∈ drawn_paths
                   (class_loop B Vector.koppen_colors Vector.min_area 2 true
                      "Error processing climate zone " data transform fr) ->
            Vector.koppen_colors !! pr_class pr = Some (pr_fill pr)).
  { intros pr Hpr. apply elem_of_drawn_paths in Hpr as (z & Hz & Hpr).
    apply class_loop_zone_ok in Hz as Hok.
    destruct (zone_path_inv _ _ _ _ _ _ _ _ z pr Hok Hpr)
      as (m & poly & _ & _ & _ & _ & Hclass & Hfill).
    now rewrite Hclass. }
  split; [|split; [|split; [|split; [|split]]]].
  - intros code Hnone. split; apply Forall_forall.
    + intros z Hz. exact (class_loop_unmapped _ _ _ _ _ _ _ _ _ code z Hnone Hz).
    + intros pr Hpr Heq. apply Hpath in Hpr. congruence.
  - apply Forall_forall. exact Hpath.
  - intros code. apply class_loop_mapped.
  - intros gridcodes code Hin. unfold Labels.climate_zones, Labels.value_counts_sorted.
    rewrite map_map. apply list_elem_of_In, in_map_iff. exists code. cbn.
    split; [reflexivity|]. now apply list_elem_of_In, elem_of_np_unique.
  - intros code Hnone. unfold Labels.label. now rewrite Hnone.
  - intros code Hout. split; [now apply vector_colors_unmapped|now apply labels_unmapped].
Qed.

(** C7 as stated fails: the class code 31 has no colour; on a raster whose
    only cell holds 31 the renderer draws nothing and falls back to no
    default style, while the same raster with the mapped code 30 gets its
    path. *)
Lemma unmapped_class_not_rendered :
  Vector.koppen_colors !! 31%Z = None
  /\ positive_values [[31%Z]] = [31%Z]
  /\ Vector.create_vectorized_svg one_cell_backend [[31%Z]] degree_cells = []
  /\ drawn_paths
       (Vector.create_vectorized_svg one_cell_backend [[30%Z]] degree_cells)
     = [mkPathRecord 30
          "M 0.00 0.00 L 0.00 900.00 L 1200.00 900.00 L 1200.00 0.00 L 0.00 0.00 Z"
          "#666666"].
Proof. repeat split; vm_compute; reflexivity. Qed.

(** ** Reading a document *)

Lemma element_paths_app (d1 d2 : list Element) :
  element_paths (d1 ++ d2) = element_paths d1 ++ element_paths d2.
Proof. unfold element_paths. apply flat_map_app. Qed.

Lemma element_paths_map (paths : list PathRecord) :
  element_paths (map (fun pr => EPath pr None) paths) = paths.
Proof.
  unfold element_paths.
  induction paths as [|pr paths IH]; cbn; [reflexivity|]. now rewrite IH.
Qed.

Lemma count_elements_app (kind : Element -> bool) (d1 d2 : list Element) :
  count_elements kind (d1 ++ d2)
  = (count_elements kind d1 + count_elements kind d2)%nat.
Proof. unfold count_elements. now rewrite List.filter_app, length_app. Qed.

Lemma count_elements_paths (kind : Element -> bool) (paths : list PathRecord) :
  (forall pr, kind (EPath pr None) = false) ->
  count_elements kind (map (fun pr => EPath pr None) paths) = 0%nat.
Proof.
  intros Hkind. unfold count_elements.
  induction paths as [|pr paths IH]; cbn; [reflexivity|]. now rewrite Hkind.
Qed.

Lemma degenerate_dec (fr : Frame) : {degenerate fr} + {~ degenerate fr}.
Proof.
  unfold degenerate.
  destruct (Qeq_dec (east fr - west fr) 0) as [Hx|Hx]; [left; now left|].
  destruct (Qeq_dec (north fr - south fr) 0) as [Hy|Hy]; [left; now right|].
  right. tauto.
Qed.

(** ** The panels and the legend of [create_optimized_scientific_layout] *)

Lemma final_panel_path_class (B : Backend) (data : Grid) (transform : Affine)
    (pr : PathRecord) :
  pr ∈ drawn_paths (Final.panel B data transform) ->
  (1 <= pr_class pr <= 30)%Z.
Proof.
  unfold Final.panel. intros Hpr.
  apply elem_of_drawn_paths in Hpr as (z & Hz & Hpr).
  apply class_loop_zone_ok in Hz as Hok.
  destruct (zone_path_inv _ _ _ _ _ _ _ _ z pr Hok Hpr)
    as (m & poly & _ & _ & _ & _ & Hclass & Hfill).
  apply final_colors_mapped. rewrite Hclass. eauto.
Qed.

Lemma final_site_elements_ok (show_labels : bool) (fr : Frame) (i : nat)
    (site : Site) :
  ~ degenerate fr ->
  exists elements,
    Final.site_elements show_labels fr i site = Ok elements
    /\ element_paths elements = []
    /\ count_elements is_circle elements = 1%nat
    /\ count_elements is_text elements = (if show_labels then 1 else 0)%nat
    /\ count_elements is_rect elements = (if show_labels then 1 else 0)%nat.
Proof.
  intros Hdeg. unfold Final.site_elements.
  rewrite project_ok
    by (intros H; apply Hdeg; first [left; exact H | right; exact H]).
  cbn. destruct show_labels; eexists; (split; [reflexivity|]); now cbn.
Qed.

Lemma final_sites_loop_ok (show_labels : bool) (fr : Frame) (i : nat)
    (sites : list Site) :
  ~ degenerate fr ->
  forall dwg, exists elements,
    Final.sites_loop show_labels fr i sites dwg = Ok (dwg ++ elements)
    /\ element_paths elements = []
    /\ count_elements is_circle elements = length sites
    /\ count_elements is_text elements
       = (if show_labels then length sites else 0)%nat
    /\ count_elements is_rect elements
       = (if show_labels then length sites else 0)%nat.
Proof.
  intros Hdeg. induction sites as [|site sites IH]; intros dwg; cbn.
  - exists []. rewrite app_nil_r. now destruct show_labels.
  - destruct (final_site_elements_ok show_labels fr i site Hdeg)
      as (els & -> & Hp & Hc & Ht & Hr). cbn.
    destruct (IH (dwg ++ els)) as (rest & -> & Hp' & Hc' & Ht' & Hr').
    exists (els ++ rest). rewrite <- app_assoc. split; [reflexivity|].
    rewrite element_paths_app, !count_elements_app, Hp, Hp', Hc, Hc', Ht, Ht', Hr, Hr'.
    now destruct show_labels.
Qed.

Lemma final_sites_loop_raises (show_labels : bool) (fr : Frame) (i : nat)
    (site : Site) (sites : list Site) (dwg : list Element) :
  degenerate fr ->
  Final.sites_loop show_labels fr i (site :: sites) dwg = Raise ZeroDivisionError.
Proof.
  intros Hdeg. cbn. unfold Final.site_elements.
  now rewrite (project_degenerate fr _ Hdeg).
Qed.

Lemma element_paths_translated (offset : Q * Q) (paths : list PathRecord) :
  element_paths (map (fun pr => EPath pr (Some offset)) paths) = paths.
Proof.
  unfold element_paths.
  induction paths as [|pr paths IH]; cbn; [reflexivity|]. now rewrite IH.
Qed.

Lemma count_elements_translated (kind : Element -> bool) (offset : Q * Q)
    (paths : list PathRecord) :
  (forall pr, kind (EPath pr (Some offset)) = false) ->
  count_elements kind (map (fun pr => EPath pr (Some offset)) paths) = 0%nat.
Proof.
  intros Hkind. unfold count_elements.
  induction paths as [|pr paths IH]; cbn; [reflexivity|].
  now rewrite Hkind.
Qed.

(** A panel is drawn unless its sites are asked for and its window is
    degenerate; it then holds the paths of its class loop and, with
    [show_sites], a marker per site. *)
Lemma final_draw_panel_ok (B : Backend) (show_sites show_labels : bool) (i : nat)
    (data : Grid) (transform : Affine) (title_lines : string * string)
    (color : string) :
  show_sites = false \/ ~ degenerate_window (Some (data, transform)) ->
  exists elements,
    Final.draw_panel B show_sites show_labels i data transform title_lines color
    = Ok (Final.mkPanel i (Final.panel B data transform) elements)
    /\ element_paths elements = drawn_paths (Final.panel B data transform)
    /\ count_elements is_circle elements
       = (if show_sites then length study_sites else 0)%nat
    /\ count_elements is_text elements
       = (2 + if show_sites && show_labels then length study_sites else 0)%nat
    /\ count_elements is_rect elements
       = (2 + if show_sites && show_labels then length study_sites else 0)%nat
    /\ head elements = Some (Final.panel_border i).
Proof.
  intros Hcase. unfold Final.draw_panel, degenerate_window in *. cbv zeta.
  set (fr := window_frame transform data Final.map_width Final.map_height) in *.
  set (paths := drawn_paths (Final.panel B data transform)).
  set (title := Final.title_elements i title_lines color).
  set (dwg := [Final.panel_border i] ++ _).
  assert (Hdwg : element_paths dwg = paths
                 /\ count_elements is_circle dwg = 0%nat
                 /\ count_elements is_text dwg = 0%nat
                 /\ count_elements is_rect dwg = 1%nat).
  { subst dwg.
    rewrite element_paths_app, !count_elements_app, element_paths_translated,
      !count_elements_translated by reflexivity.
    repeat split; reflexivity. }
  destruct Hdwg as (Hp & Hc & Ht & Hr).
  assert (Hhead : forall rest, head (dwg ++ rest) = Some (Final.panel_border i))
    by reflexivity.
  clearbody dwg.
  assert (Htitle : element_paths title = []
                   /\ count_elements is_circle title = 0%nat
                   /\ count_elements is_text title = 2%nat
                   /\ count_elements is_rect title = 1%nat)
    by (repeat split; reflexivity).
  destruct Htitle as (Hp' & Hc' & Ht' & Hr'). clearbody title.
  destruct show_sites.
  - destruct Hcase as [Hcase|Hdeg]; [discriminate|].
    destruct (final_sites_loop_ok show_labels fr i study_sites Hdeg dwg)
      as (els & -> & Hp'' & Hc'' & Ht'' & Hr'').
    cbn [mbind result_bind]. eexists. split; [reflexivity|].
    rewrite <- (app_assoc dwg), (Hhead (els ++ title)), (app_assoc dwg).
    rewrite !element_paths_app, !count_elements_app,
      Hp, Hp', Hp'', Hc, Hc', Hc'', Ht, Ht', Ht'', Hr, Hr', Hr'', !app_nil_r.
    destruct show_labels; cbn; repeat split; lia.
  - cbn [mbind result_bind]. eexists. split; [reflexivity|].
    rewrite (Hhead title).
    rewrite !element_paths_app, !count_elements_app,
      Hp, Hp', Hc, Hc', Ht, Ht', Hr, Hr', !app_nil_r.
    cbn; repeat split; lia.
Qed.

Lemma final_draw_panel_raises (B : Backend) (show_labels : bool) (i : nat)
    (data : Grid) (transform : Affine) (title_lines : string * string)
    (color : string) :
  degenerate_window (Some (data, transform)) ->
  Final.draw_panel B true show_labels i data transform title_lines color
  = Raise ZeroDivisionError.
Proof.
  intros Hdeg. unfold Final.draw_panel, study_sites.
  now rewrite final_sites_loop_raises.
Qed.

Lemma degenerate_window_dec (tif : option (Grid * Affine)) :
  {degenerate_window tif} + {~ degenerate_window tif}.
Proof.
  destruct tif as [[data transform]|]; cbn; [apply degenerate_dec|right; tauto].
Qed.

(** The loop over the files: it draws a panel per file that exists, in
    order, and raises at the first one with a degenerate window when the
    sites are asked for. *)
Lemma final_panels_loop_cases (B : Backend) (show_sites show_labels : bool)
    (files : list (nat * (option (Grid * Affine) * ((string * string) * string))))
    (panels : list Final.Panel) :
  match Final.panels_loop B show_sites show_labels files panels with
  | Ok panels' =>
      exists new,
        panels' = panels ++ new
        /\ map (fun p => (Final.panel_index p, Final.panel_zones p)) new
           = omap (fun f => panel_of B (fst f, fst (snd f))) files
        /\ (show_sites = true ->
            Forall (fun f => ~ degenerate_window (fst (snd f))) files)
  | Raise e =>
      e = ZeroDivisionError
      /\ show_sites = true
      /\ Exists (fun f => degenerate_window (fst (snd f))) files
  end.
Proof.
  revert panels.
  induction files as [|[i [tif [title_lines color]]] files IH]; intros panels.
  - cbn. exists []. rewrite app_nil_r. auto.
  - cbn [Final.panels_loop]. destruct tif as [[data transform]|].
    + destruct (degenerate_window_dec (Some (data, transform))) as [Hdeg|Hdeg].
      * destruct show_sites.
        -- rewrite (final_draw_panel_raises B show_labels i data transform
                      title_lines color Hdeg).
           cbn. split; [reflexivity|]. split; [reflexivity|]. now left.
        -- destruct (final_draw_panel_ok B false show_labels i data transform
                       title_lines color (or_introl eq_refl)) as (els & -> & _).
           cbn [mbind result_bind].
           specialize (IH (panels ++ [Final.mkPanel i (Final.panel B data transform) els])).
           destruct (Final.panels_loop B false show_labels files _) as [panels'|e].
           ++ destruct IH as (new & -> & Hnew & _).
              exists (Final.mkPanel i (Final.panel B data transform) els :: new).
              rewrite <- app_assoc. split; [reflexivity|].
              split; [|discriminate]. cbn. now rewrite Hnew.
           ++ destruct IH as (_ & Hfalse & _). discriminate.
      * destruct (final_draw_panel_ok B show_sites show_labels i data transform
                    title_lines color (or_intror Hdeg)) as (els & -> & _).
        cbn [mbind result_bind].
        specialize (IH (panels ++ [Final.mkPanel i (Final.panel B data transform) els])).
        destruct (Final.panels_loop B show_sites show_labels files _) as [panels'|e].
        -- destruct IH as (new & -> & Hnew & Hall).
           exists (Final.mkPanel i (Final.panel B data transform) els :: new).
           rewrite <- app_assoc. split; [reflexivity|]. split.
           ++ cbn. now rewrite Hnew.
           ++ intros Hs. constructor; [exact Hdeg|now apply Hall].
        -- destruct IH as (-> & Hs & Hex). split; [reflexivity|].
           split; [exact Hs|]. now right.
    + specialize (IH panels).
      destruct (Final.panels_loop B show_sites show_labels files panels) as [panels'|e].
      * destruct IH as (new & -> & Hnew & Hall). exists new.
        split; [reflexivity|]. split; [exact Hnew|].
        intros Hs. constructor; [cbn; tauto|now apply Hall].
      * destruct IH as (-> & Hs & Hex). split; [reflexivity|].
        split; [exact Hs|]. now right.
Qed.

(** The files the loop runs over are the first three of [tif_paths], each at
    its position. *)
Lemma final_files_take (tifs : list (option (Grid * Affine))) :
  map (fun f => (fst f, fst (snd f)))
    (enumerate (combine tifs (combine Final.titles Final.scenario_colors)))
  = enumerate (take 3 tifs).
Proof. destruct tifs as [|t1 [|t2 [|t3 [|t4 rest]]]]; reflexivity. Qed.

Lemma final_files_tifs (tifs : list (option (Grid * Affine))) :
  map (fun f => fst (snd f))
    (enumerate (combine tifs (combine Final.titles Final.scenario_colors)))
  = take 3 tifs.
Proof. destruct tifs as [|t1 [|t2 [|t3 [|t4 rest]]]]; reflexivity. Qed.

Lemma omap_map {A B C : Type} (f : B -> option C) (g : A -> B) (l : list A) :
  omap (fun x => f (g x)) l = omap f (map g l).
Proof.
  induction l as [|x l IH]; cbn; [reflexivity|].
  destruct (f (g x)); now rewrite IH.
Qed.

Lemma omap_panel_of_nil (B : Backend) (k : nat) (tifs : list (option (Grid * Affine))) :
  omap (panel_of B) (combine (seq k (length tifs)) tifs) = [] <->
  Forall (fun tif => tif = None) tifs.
Proof.
  revert k. induction tifs as [|tif tifs IH]; intros k; cbn.
  - split; [constructor|reflexivity].
  - destruct tif as [[data transform]|]; cbn.
    + split; [discriminate|]. intros H. inversion H. discriminate.
    + rewrite IH. split; [now constructor|]. intros H. now inversion H.
Qed.

(** The outcomes of the layout.  When it is drawn the legend is the static
    one, there is a panel for each of the first three files that exists, at
    its position and with the zones of its class loop, at least one of them
    exists, and with [show_sites] none has a degenerate window.  It raises
    for one of two reasons: none of the first three files exists, or the
    sites are asked for on a degenerate window. *)
Lemma final_layout_cases (B : Backend) (tifs : list (option (Grid * Affine)))
    (show_sites show_labels : bool) :
  match Final.create_optimized_scientific_layout B tifs show_sites show_labels with
  | Ok layout =>
      Final.layout_legend layout = Final.legend
      /\ map (fun p => (Final.panel_index p, Final.panel_zones p))
           (Final.layout_panels layout)
         = omap (panel_of B) (enumerate (take 3 tifs))
      /\ ~ Forall (fun tif => tif = None) (take 3 tifs)
      /\ (show_sites = true ->
          Forall (fun tif => ~ degenerate_window tif) (take 3 tifs))
  | Raise e =>
      (e = UnboundLocalError "y_offset"
       /\ Forall (fun tif => tif = None) (take 3 tifs))
      \/ (e = ZeroDivisionError
          /\ show_sites = true
          /\ Exists degenerate_window (take 3 tifs))
  end.
Proof.
  unfold Final.create_optimized_scientific_layout.
  pose proof (final_panels_loop_cases B show_sites show_labels
                (enumerate (combine tifs (combine Final.titles Final.scenario_colors)))
                []) as Hloop.
  destruct (Final.panels_loop B show_sites show_labels _ []) as [panels|e].
  - destruct Hloop as (new & Hpanels & Hnew & Hall). cbn in Hpanels. subst new.
    rewrite (omap_map (panel_of B) (fun f => (fst f, fst (snd f)))),
      final_files_take in Hnew.
    rewrite <- (Forall_map (fun f => fst (snd f)) (fun tif => ~ degenerate_window tif)),
      final_files_tifs in Hall.
    cbn [mbind result_bind]. destruct panels as [|p panels].
    + left. split; [reflexivity|].
      apply (omap_panel_of_nil B 0). symmetry. exact Hnew.
    + cbn [Final.layout_legend Final.layout_panels].
      split; [reflexivity|]. split; [exact Hnew|]. split; [|exact Hall].
      intros Hnone. apply (omap_panel_of_nil B 0) in Hnone.
      unfold enumerate in Hnew. rewrite Hnone in Hnew. discriminate.
  - destruct Hloop as (-> & Hs & Hex). cbn. right.
    split; [reflexivity|]. split; [exact Hs|].
    rewrite <- (Exists_map (fun f => fst (snd f)) degenerate_window),
      final_files_tifs in Hex. exact Hex.
Qed.

Lemma final_layout_inv (B : Backend) (tifs : list (option (Grid * Affine)))
    (show_sites show_labels : bool) (layout : Final.Layout) :
  Final.create_optimized_scientific_layout B tifs show_sites show_labels = Ok layout ->
  Final.layout_legend layout = Final.legend
  /\ Forall (fun p => exists data transform,
               Final.panel_zones p = Final.panel B data transform)
       (Final.layout_panels layout).
Proof.
  intros Hl.
  pose proof (final_layout_cases B tifs show_sites show_labels) as Hcases.
  rewrite Hl in Hcases. destruct Hcases as (Hlegend & Hpanels & _).
  split; [exact Hlegend|].
  apply Forall_forall. intros p Hp.
  assert (Hin : (Final.panel_index p, Final.panel_zones p)
                ∈ omap (panel_of B) (enumerate (take 3 tifs))).
  { rewrite <- Hpanels. apply list_elem_of_In, in_map_iff. exists p.
    split; [reflexivity|]. now apply list_elem_of_In. }
  apply list_elem_of_omap in Hin as ([k [[data transform]|]] & _ & Hk);
    unfold panel_of in Hk; cbn in Hk; [|discriminate].
  injection Hk as _ Hz. eauto.
Qed.

Lemma final_layout_path_inv (B : Backend) (tifs : list (option (Grid * Affine)))
    (show_sites show_labels : bool) (layout : Final.Layout) (pr : PathRecord) :
  Final.create_optimized_scientific_layout B tifs show_sites show_labels = Ok layout ->
  pr ∈ Final.layout_paths layout ->
  exists data transform, pr ∈ drawn_paths (Final.panel B data transform).
Proof.
  intros Hl Hpr. apply final_layout_inv in Hl as [_ Hpanels].
  unfold Final.layout_paths in Hpr.
  apply list_elem_of_In, in_concat in Hpr as (ps & Hps & Hpr).
  apply in_map_iff in Hps as (p & <- & Hp).
  rewrite Forall_forall in Hpanels.
  apply list_elem_of_In, Hpanels in Hp as (data & transform & Hz).
  rewrite Hz in Hpr. apply list_elem_of_In in Hpr. eauto.
Qed.

Lemma final_drawn_classes_range (B : Backend) (tifs : list (option (Grid * Affine)))
    (show_sites show_labels : bool) (layout : Final.Layout) (code : Z) :
  Final.create_optimized_scientific_layout B tifs show_sites show_labels = Ok layout ->
  code ∈ Final.drawn_classes layout ->
  (1 <= code <= 30)%Z.
Proof.
  intros Hl. unfold Final.drawn_classes.
  rewrite list_elem_of_In, in_map_iff. intros (pr & <- & Hpr).
  apply list_elem_of_In in Hpr.
  destruct (final_layout_path_inv B tifs show_sites show_labels layout pr Hl Hpr)
    as (data & transform & Hin).
  now apply final_panel_path_class in Hin.
Qed.

(** C8, amended.  When the layout is drawn, its legend does not depend on the
    render: it lists the 19 class codes 1-9, 11, 12, 14, 15, 21, 22, 25, 26,
    29 and 30, in ascending order and so each exactly once.  A class code of
    a drawn path lies in 1..30; it is in the legend exactly once unless it is
    one of 10, 13, 16-20, 23, 24, 27 and 28, which the legend does not list.
    The layout is not drawn, and has no legend, in two cases only: none of
    the first three files exists ([y_offset] is then unbound), or the sites
    are asked for and one of those files has a degenerate window (the
    projection of a site then divides by zero). *)
Theorem legend_is_fixed (B : Backend) (tifs : list (option (Grid * Affine)))
    (show_sites show_labels : bool) :
  match Final.create_optimized_scientific_layout B tifs show_sites show_labels with
  | Ok layout =>
      Final.legend_classes layout
      = [1; 2; 3; 4; 5; 6; 7; 8; 9; 11; 12; 14; 15; 21; 22; 25; 26; 29; 30]%Z
      /\ StronglySorted Z.lt (Final.legend_classes layout)
      /\ Forall
           (fun code =>
              (1 <= code <= 30)%Z
              /\ count_occ Z.eq_dec (Final.legend_classes layout) code
                 = if bool_decide
                        (code ∈ [10; 13; 16; 17; 18; 19; 20; 23; 24; 27; 28]%Z)
                   then 0%nat else 1%nat)
           (Final.drawn_classes layout)
  | Raise e =>
      (e = UnboundLocalError "y_offset"
       /\ Forall (fun tif => tif = None) (take 3 tifs))
      \/ (e = ZeroDivisionError
          /\ show_sites = true
          /\ Exists degenerate_window (take 3 tifs))
  end.
Proof.
  pose proof (final_layout_cases B tifs show_sites show_labels) as Hcases.
  destruct (Final.create_optimized_scientific_layout B tifs show_sites show_labels)
    as [layout|e] eqn:Hl; [clear Hcases|exact Hcases].
  assert (Hlegend :
            Final.legend_classes layout
            = [1; 2; 3; 4; 5; 6; 7; 8; 9; 11; 12; 14; 15; 21; 22; 25; 26; 29; 30]%Z).
  { unfold Final.legend_classes.
    destruct (final_layout_inv B tifs show_sites show_labels layout Hl) as [-> _].
    vm_compute. reflexivity. }
  split; [exact Hlegend|]. split.
  - rewrite Hlegend. repeat (constructor; [|repeat constructor; lia]). constructor.
  - apply Forall_forall. intros code Hcode.
    pose proof (final_drawn_classes_range B tifs show_sites show_labels layout code
                  Hl Hcode) as Hrange.
    split; [exact Hrange|]. rewrite Hlegend. clear Hcode Hlegend.
    assert (Hcases : exists n : nat, (n < 30)%nat /\ code = (Z.of_nat n + 1)%Z)
      by (exists (Z.to_nat (code - 1)); lia).
    destruct Hcases as (n & Hn & ->).
    do 30 (destruct n as [|n]; [vm_compute; reflexivity|]). lia.
Qed.

(** C8 as stated fails: a raster whose only cell holds class 10 gets a path
    for class 10, and the legend has no entry for 10. *)
Lemma drawn_class_missing_from_legend :
  exists layout,
    Final.create_optimized_scientific_layout one_cell_backend
      [Some ([[10%Z]], degree_cells)] true true
    = Ok layout
    /\ Final.layout_paths layout
       = [mkPathRecord 10 "M 0.0 0.0 L 0.0 700.0 L 600.0 700.0 L 600.0 0.0 L 0.0 0.0 Z"
            "#969600"]
    /\ Final.drawn_classes layout = [10%Z]
    /\ count_occ Z.eq_dec (Final.legend_classes layout) 10%Z = 0%nat.
Proof.
  eexists. split; [reflexivity|]. split; [|split]; vm_compute; reflexivity.
Qed.

(** ** The merger *)

Section MergerFacts.

Import Merger.

Implicit Types (r comp : gset (Z * Z)) (c seed : Z * Z).

Lemma neighbours_sym c c' : c ∈ neighbours c' -> c' ∈ neighbours c.
Proof.
  destruct c as [x y], c' as [x' y']. unfold neighbours. cbn.
  rewrite !elem_of_union, !elem_of_singleton.
  intros [[[H|H]|H]|H]; injection H as -> ->.
  - left; left; right. f_equal; lia.
  - left; left; left. f_equal; lia.
  - right. f_equal; lia.
  - left; right. f_equal; lia.
Qed.

Lemma grow_incr r comp : comp ⊆ grow r comp.
Proof. intros c Hc. unfold grow. apply elem_of_union. now left. Qed.

Lemma grow_subseteq r comp : comp ⊆ r -> grow r comp ⊆ r.
Proof.
  intros Hsub c. unfold grow. rewrite elem_of_union, elem_of_intersection.
  intros [Hc|[Hc _]]; [now apply Hsub|exact Hc].
Qed.

Lemma flood_incr (n : nat) r comp : comp ⊆ flood n r comp.
Proof.
  revert comp. induction n as [|n IH]; intros comp; cbn; [done|].
  etrans; [apply (grow_incr r)|apply IH].
Qed.

Lemma flood_subseteq (n : nat) r comp : comp ⊆ r -> flood n r comp ⊆ r.
Proof.
  revert comp. induction n as [|n IH]; intros comp Hsub; cbn; [done|].
  apply IH. now apply grow_subseteq.
Qed.

Lemma component_seed r seed : seed ∈ component r seed.
Proof.
  unfold component. apply (flood_incr (size r) r {[ seed ]}).
  now apply elem_of_singleton.
Qed.

Lemma component_subseteq r seed : seed ∈ r -> component r seed ⊆ r.
Proof.
  intros Hin. unfold component. apply flood_subseteq.
  intros c Hc. apply elem_of_singleton in Hc. now subst.
Qed.

(** A cell of [r] next to a cell of [comp] is in [grow r comp]. *)
Lemma elem_of_grow r comp c :
  c ∈ grow r comp <-> c ∈ comp \/ (c ∈ r /\ exists c', c' ∈ comp /\ c ∈ neighbours c').
Proof.
  unfold grow. rewrite elem_of_union, elem_of_intersection, elem_of_union_list.
  split.
  - intros [H|[Hr (X & HX & Hc)]]; [now left|right].
    split; [exact Hr|].
    apply list_elem_of_fmap in HX as (c' & -> & Hc').
    exists c'. split; [now apply elem_of_elements|exact Hc].
  - intros [H|[Hr (c' & Hc' & Hc)]]; [now left|right].
    split; [exact Hr|]. exists (neighbours c'). split; [|exact Hc].
    apply list_elem_of_fmap. exists c'. split; [reflexivity|].
    now apply elem_of_elements.
Qed.

Lemma flood_fixed (n : nat) r comp : grow r comp = comp -> flood n r comp = comp.
Proof.
  intros Hfix. induction n as [|n IH]; cbn; [reflexivity|]. now rewrite Hfix.
Qed.

(** After enough rounds the flood fill is closed: one more round adds
    nothing. *)
Lemma flood_closed (n : nat) r comp :
  comp ⊆ r -> (size r <= size comp + n)%nat ->
  grow r (flood n r comp) = flood n r comp.
Proof.
  revert comp. induction n as [|n IH]; intros comp Hsub Hsize; cbn.
  - assert (comp = r) as ->.
    { apply set_eq. intros c. split; [apply Hsub|].
      intros Hc. destruct (decide (c ∈ comp)) as [|Hnot]; [done|].
      assert (size comp < size r)%nat; [|lia].
      apply subset_size. split; [exact Hsub|]. intros Hback. auto. }
    apply set_eq. intros c. rewrite elem_of_grow. tauto.
  - destruct (decide (grow r comp = comp)) as [Hfix|Hneq].
    + rewrite Hfix. rewrite (flood_fixed n r comp Hfix). exact Hfix.
    + apply IH; [now apply grow_subseteq|].
      assert (size comp < size (grow r comp))%nat; [|lia].
      apply subset_size. split; [apply grow_incr|].
      intros Hback. apply Hneq. apply set_eq. intros c.
      split; [apply Hback|apply grow_incr].
Qed.

(** A component is closed under edge adjacency inside its region. *)
Lemma component_closed r seed c c' :
  seed ∈ r -> c' ∈ component r seed -> c ∈ r -> c ∈ neighbours c' ->
  c ∈ component r seed.
Proof.
  intros Hseed Hc' Hr Hadj. unfold component in *.
  rewrite <- (flood_closed (size r) r {[ seed ]}).
  - apply elem_of_grow. right. split; [exact Hr|]. now exists c'.
  - intros x Hx. apply elem_of_singleton in Hx. now subst.
  - rewrite size_singleton. lia.
Qed.

Lemma components_fuel_cover (n : nat) r :
  (size r <= n)%nat -> ⋃ components_fuel n r = r.
Proof.
  revert r. induction n as [|n IH]; intros r Hsize; cbn.
  - symmetry. apply leibniz_equiv, size_empty_iff. lia.
  - destruct (elements r) as [|seed rest] eqn:Hel.
    + cbn. symmetry. now apply leibniz_equiv, elements_empty_iff.
    + assert (Hseed : seed ∈ r) by (apply elem_of_elements; rewrite Hel; left).
      pose proof (component_subseteq r seed Hseed) as Hsub.
      pose proof (component_seed r seed) as Hin.
      cbn. rewrite IH.
      * symmetry. now apply union_difference_L.
      * rewrite size_difference by exact Hsub.
        assert (size (component r seed) <> 0)%nat; [|lia].
        intros H0. apply size_empty_iff in H0. rewrite H0 in Hin.
        now apply not_elem_of_empty in Hin.
Qed.

(** The polygons of [components r] cover [r] exactly. *)
Lemma components_cover r : ⋃ components r = r.
Proof. unfold components. now apply components_fuel_cover. Qed.

(** The merged set has the region of the inputs: "a set of polygons whose
    union exactly equals the union of inputs". *)
Lemma merge_region (polygons : list (gset (Z * Z))) :
  ⋃ merge polygons = ⋃ polygons.
Proof. unfold merge. apply components_cover. Qed.

Lemma components_fuel_parts (n : nat) r :
  Forall (fun comp => comp <> ∅ /\ comp ⊆ r
                      /\ forall c c', c' ∈ comp -> c ∈ r -> c ∈ neighbours c' ->
                                      c ∈ comp)
    (components_fuel n r).
Proof.
  revert r. induction n as [|n IH]; intros r; cbn; [constructor|].
  destruct (elements r) as [|seed rest] eqn:Hel; [constructor|].
  assert (Hseed : seed ∈ r) by (apply elem_of_elements; rewrite Hel; left).
  pose proof (component_subseteq r seed Hseed) as Hsub.
  pose proof (component_seed r seed) as Hin.
  constructor.
  - split; [intros Hempty; rewrite Hempty in Hin; now apply not_elem_of_empty in Hin|].
    split; [exact Hsub|].
    intros c c' Hc' Hr Hadj. now apply (component_closed r seed c c').
  - eapply Forall_impl; [apply IH|]. cbn.
    intros comp (Hne & Hsub' & Hclosed). split; [exact Hne|].
    split; [intros c Hc; apply Hsub' in Hc; now apply elem_of_difference in Hc|].
    intros c c' Hc' Hr Hadj.
    destruct (decide (c ∈ component r seed)) as [Hc|Hc].
    + exfalso. apply Hsub' in Hc' as Hc'r.
      apply elem_of_difference in Hc'r as [Hc'r Hc'n]. apply Hc'n.
      apply (component_closed r seed c' c Hseed Hc Hc'r).
      now apply neighbours_sym.
    + apply (Hclosed c c'); [exact Hc'| |exact Hadj].
      now apply elem_of_difference.
Qed.

(** *** Reachability and components *)

Lemma reach_in r c c' : reach r c c' -> c ∈ r /\ c' ∈ r.
Proof.
  induction 1 as [Hc|c' c'' _ [IH _] Hc'' _]; [now split|now split].
Qed.

Lemma reach_trans r c1 c2 c3 : reach r c1 c2 -> reach r c2 c3 -> reach r c1 c3.
Proof.
  intros H12 H23. induction H23 as [_|c' c'' _ IH Hc'' Hadj]; [exact H12|].
  now apply (reach_step r c1 c' c'').
Qed.

Lemma reach_sym r c c' : reach r c c' -> reach r c' c.
Proof.
  induction 1 as [Hc|c' c'' Hreach IH Hc'' Hadj]; [now constructor|].
  apply (reach_trans r c'' c' c); [|exact IH].
  apply (reach_step r c'' c'' c').
  - now constructor.
  - now destruct (reach_in r c c' Hreach).
  - now apply neighbours_sym.
Qed.

Lemma reach_mono r r' c c' : r ⊆ r' -> reach r c c' -> reach r' c c'.
Proof.
  intros Hsub. induction 1 as [Hc|c' c'' _ IH Hc'' Hadj].
  - constructor. now apply Hsub.
  - apply (reach_step r' c c' c''); [exact IH|now apply Hsub|exact Hadj].
Qed.

(** A part of [r] closed under adjacency in [r] holds everything that can be
    reached in [r] from one of its cells, and by a path inside the part. *)
Lemma reach_closed r p c c' :
  p ⊆ r ->
  (forall d d', d' ∈ p -> d ∈ r -> d ∈ neighbours d' -> d ∈ p) ->
  c ∈ p -> reach r c c' -> c' ∈ p /\ reach p c c'.
Proof.
  intros Hsub Hclosed Hc. induction 1 as [_|c' c'' _ [IHin IH] Hc'' Hadj].
  - split; [exact Hc|now constructor].
  - assert (Hin : c'' ∈ p) by now apply (Hclosed c'' c').
    split; [exact Hin|]. now apply (reach_step p c c' c'').
Qed.

Lemma flood_reach (n : nat) r comp seed :
  (forall c, c ∈ comp -> reach r seed c) ->
  forall c, c ∈ flood n r comp -> reach r seed c.
Proof.
  revert comp. induction n as [|n IH]; intros comp Hcomp c; cbn; [apply Hcomp|].
  apply IH. clear c. intros c Hc.
  apply elem_of_grow in Hc as [Hc|[Hr (c' & Hc' & Hadj)]]; [now apply Hcomp|].
  apply (reach_step r seed c' c); [now apply Hcomp|exact Hr|exact Hadj].
Qed.

(** The component of [seed] in [r] is what can be reached from [seed] in [r]. *)
Lemma elem_of_component r seed c :
  seed ∈ r -> c ∈ component r seed <-> reach r seed c.
Proof.
  intros Hseed. split.
  - unfold component. apply flood_reach.
    intros d Hd. apply elem_of_singleton in Hd as ->. now constructor.
  - induction 1 as [_|c' c'' _ IH Hc'' Hadj]; [apply component_seed|].
    now apply (component_closed r seed c'' c').
Qed.

Lemma component_connected r seed : seed ∈ r -> connected (component r seed).
Proof.
  intros Hseed.
  assert (Hfrom : forall c, c ∈ component r seed -> reach (component r seed) seed c).
  { intros c Hc. apply (elem_of_component r seed c Hseed) in Hc.
    apply (reach_closed r (component r seed) seed c).
    - now apply component_subseteq.
    - intros d d' Hd' Hd Hadj. now apply (component_closed r seed d d').
    - apply component_seed.
    - exact Hc. }
  intros c c' Hc Hc'.
  apply (reach_trans _ c seed c'); [apply reach_sym|]; now apply Hfrom.
Qed.

(** *** The result of a merge is an already-merged set *)

Lemma components_fuel_merged (n : nat) r : merged (components_fuel n r).
Proof.
  revert r. induction n as [|n IH]; intros r; cbn; [exact I|].
  destruct (elements r) as [|seed rest] eqn:Hel; [exact I|].
  assert (Hseed : seed ∈ r) by (apply elem_of_elements; rewrite Hel; left).
  pose proof (component_seed r seed) as Hin.
  cbn. split; [|split; [|split]].
  - intros Hempty. rewrite Hempty in Hin. now apply not_elem_of_empty in Hin.
  - now apply component_connected.
  - eapply Forall_impl; [apply (components_fuel_parts n)|]. cbn.
    intros q (_ & Hsub & _). split.
    + intros c Hc Hq. apply Hsub, elem_of_difference in Hq as [_ Hq]. auto.
    + intros c c' Hc Hc' Hadj.
      apply Hsub, elem_of_difference in Hc' as [Hr Hnot]. apply Hnot.
      now apply (component_closed r seed c' c).
  - apply IH.
Qed.

Lemma merge_merged (polygons : list (gset (Z * Z))) : merged (merge polygons).
Proof. unfold merge, components. apply components_fuel_merged. Qed.

(** *** An already-merged set is a fixed point of the merge *)

Lemma separated_sym (p q : gset (Z * Z)) : separated p q -> separated q p.
Proof.
  intros [Hdisj Hadj]. split.
  - intros c Hq Hp. exact (Hdisj c Hp Hq).
  - intros c c' Hq Hp Hn. apply (Hadj c' c Hp Hq). now apply neighbours_sym.
Qed.

Lemma merged_perm (S S' : list (gset (Z * Z))) : S ≡ₚ S' -> merged S -> merged S'.
Proof.
  induction 1 as [|p S S' Hperm IH|p q S|S1 S2 S3 _ IH12 _ IH23]; cbn.
  - auto.
  - intros (Hne & Hconn & Hsep & Hrest).
    split; [exact Hne|]. split; [exact Hconn|]. split; [|now apply IH].
    now rewrite <- Hperm.
  - intros (Hq & Hcq & Hsq & Hp & Hcp & Hsp & Hrest).
    apply Forall_cons in Hsq as [Hqp Hsq].
    split; [exact Hp|]. split; [exact Hcp|]. split.
    + constructor; [now apply separated_sym|exact Hsp].
    + split; [exact Hq|]. split; [exact Hcq|]. split; [exact Hsq|exact Hrest].
  - auto.
Qed.

Lemma union_list_perm (S S' : list (gset (Z * Z))) : S ≡ₚ S' -> ⋃ S = ⋃ S'.
Proof.
  intros Hperm. apply set_eq. intros c. rewrite !elem_of_union_list.
  split; intros (X & HX & Hc); exists X; split; auto.
  - now rewrite <- Hperm.
  - now rewrite Hperm.
Qed.

(** In an already-merged set the component of a cell is its polygon. *)
Lemma component_of_merged (p : gset (Z * Z)) (rest : list (gset (Z * Z))) seed :
  merged (p :: rest) -> seed ∈ p -> component (⋃ (p :: rest)) seed = p.
Proof.
  intros (Hne & Hconn & Hsep & _) Hseed. cbn.
  assert (Hsub : p ⊆ p ∪ ⋃ rest) by (intros c Hc; apply elem_of_union; now left).
  assert (Hclosed : forall d d', d' ∈ p -> d ∈ p ∪ ⋃ rest -> d ∈ neighbours d' -> d ∈ p).
  { intros d d' Hd' Hd Hadj. apply elem_of_union in Hd as [Hd|Hd]; [exact Hd|].
    apply elem_of_union_list in Hd as (q & Hq & Hd).
    rewrite Forall_forall in Hsep. destruct (Hsep q Hq) as [_ Hnot].
    now destruct (Hnot d' d Hd' Hd). }
  apply set_eq. intros c.
  rewrite (elem_of_component (p ∪ ⋃ rest) seed c (Hsub seed Hseed)). split.
  - intros Hreach.
    now destruct (reach_closed (p ∪ ⋃ rest) p seed c Hsub Hclosed Hseed Hreach).
  - intros Hc. apply (reach_mono p); [exact Hsub|]. now apply Hconn.
Qed.

Lemma merged_difference (p : gset (Z * Z)) (rest : list (gset (Z * Z))) :
  merged (p :: rest) -> ⋃ (p :: rest) ∖ p = ⋃ rest.
Proof.
  intros (_ & _ & Hsep & _). cbn. apply set_eq. intros c.
  rewrite elem_of_difference, elem_of_union. split.
  - intros [[Hp|Hrest] Hnot]; [contradiction|exact Hrest].
  - intros Hrest. split; [now right|].
    apply elem_of_union_list in Hrest as (q & Hq & Hc).
    rewrite Forall_forall in Hsep. destruct (Hsep q Hq) as [Hdisj _].
    intros Hp. exact (Hdisj c Hp Hc).
Qed.

Lemma merged_empty_region (S : list (gset (Z * Z))) : merged S -> ⋃ S = ∅ -> S = [].
Proof.
  destruct S as [|p rest]; [reflexivity|].
  intros (Hne & _) Hempty. cbn in Hempty. exfalso. apply Hne.
  apply set_eq. intros c. split; [|intros Hc; now apply not_elem_of_empty in Hc].
  intros Hc. rewrite <- Hempty. apply elem_of_union. now left.
Qed.

Lemma components_fuel_of_merged (n : nat) (S : list (gset (Z * Z))) :
  merged S -> (size (⋃ S) <= n)%nat -> components_fuel n (⋃ S) ≡ₚ S.
Proof.
  revert S. induction n as [|n IH]; intros S Hmerged Hsize; cbn.
  - rewrite (merged_empty_region S Hmerged); [reflexivity|].
    apply leibniz_equiv, size_empty_iff. lia.
  - destruct (elements (⋃ S)) as [|seed els] eqn:Hel.
    + rewrite (merged_empty_region S Hmerged); [reflexivity|].
      now apply leibniz_equiv, elements_empty_iff.
    + assert (Hseed : seed ∈ ⋃ S) by (apply elem_of_elements; rewrite Hel; left).
      apply elem_of_union_list in Hseed as (p & Hp & Hseed).
      apply elem_of_Permutation in Hp as (rest & Hperm).
      pose proof (merged_perm S (p :: rest) Hperm Hmerged) as Hmerged'.
      rewrite (union_list_perm S (p :: rest) Hperm) in *.
      rewrite (component_of_merged p rest seed Hmerged' Hseed).
      rewrite (merged_difference p rest Hmerged').
      rewrite Hperm. constructor. apply IH.
      * now destruct Hmerged' as (_ & _ & _ & Hrest).
      * assert (size (⋃ (p :: rest) ∖ p) < size (⋃ (p :: rest)))%nat.
        { apply subset_size. split.
          - intros c Hc. now apply elem_of_difference in Hc as [Hc _].
          - intros Hback. assert (Hin : seed ∈ ⋃ (p :: rest))
              by (cbn; apply elem_of_union; now left).
            apply Hback, elem_of_difference in Hin as [_ Hnot]. auto. }
        rewrite (merged_difference p rest Hmerged') in H. lia.
Qed.

Lemma merge_of_merged (S : list (gset (Z * Z))) : merged S -> merge S ≡ₚ S.
Proof.
  intros Hmerged. unfold merge, components. now apply components_fuel_of_merged.
Qed.

End MergerFacts.

(** The polygons of a merge are non-empty parts of the union of the inputs,
    each closed under edge adjacency inside that union: no two of them share
    an edge, and none can be merged further. *)
Lemma merge_parts (polygons : list (gset (Z * Z))) :
  Forall
    (fun comp =>
       comp <> ∅ /\ comp ⊆ ⋃ polygons
       /\ forall c c', c' ∈ comp -> c ∈ ⋃ polygons -> c ∈ Merger.neighbours c' ->
                       c ∈ comp)
    (Merger.merge polygons).
Proof. unfold Merger.merge, Merger.components. apply components_fuel_parts. Qed.

Example merge_joins_fragments :
  Merger.merge [ {[ (0, 0)%Z; (1, 0)%Z ]}; {[ (1, 0)%Z; (2, 0)%Z ]}; {[ (3, 1)%Z ]} ]
  = [ {[ (0, 0)%Z; (1, 0)%Z; (2, 0)%Z ]}; {[ (3, 1)%Z ]} ].
Proof. vm_compute. reflexivity. Qed.

(** On the results of merges the fixed point is exact, order included. *)
Lemma merge_fixed_point (polygons : list (gset (Z * Z))) :
  let S := Merger.merge polygons in
  Merger.merge (S ++ S) = S /\ Merger.merge S = S.
Proof.
  cbv zeta. split.
  - unfold Merger.merge at 1.
    rewrite union_list_app_L, merge_region, union_idemp_L. reflexivity.
  - unfold Merger.merge at 1. rewrite merge_region. reflexivity.
Qed.

(** C9.  The merge is idempotent: for an already-merged polygon set [S] (its
    polygons non-empty and in one piece, no two of them overlapping or
    sharing an edge), the union of [S] with itself is [S] again, up to the
    order of the polygons; and so is the merge of [S] alone. *)
Theorem merge_idempotent (S : list (gset (Z * Z))) :
  Merger.merged S ->
  Merger.merge (S ++ S) ≡ₚ S /\ Merger.merge S ≡ₚ S.
Proof.
  intros Hmerged. split; [|now apply merge_of_merged].
  unfold Merger.merge. rewrite union_list_app_L, union_idemp_L.
  now apply merge_of_merged.
Qed.

(** An already-merged set of two polygons, the result of the merge of three
    fragments, merged with itself. *)
Lemma merge_idempotent_witness :
  Merger.merge
    ([ {[ (0, 0)%Z; (1, 0)%Z; (2, 0)%Z ]}; {[ (3, 1)%Z ]} ]
     ++ [ {[ (0, 0)%Z; (1, 0)%Z; (2, 0)%Z ]}; {[ (3, 1)%Z ]} ])
  ≡ₚ [ {[ (0, 0)%Z; (1, 0)%Z; (2, 0)%Z ]}; {[ (3, 1)%Z ]} ]
  /\ Merger.merge [ {[ (0, 0)%Z; (1, 0)%Z; (2, 0)%Z ]}; {[ (3, 1)%Z ]} ]
     ≡ₚ [ {[ (0, 0)%Z; (1, 0)%Z; (2, 0)%Z ]}; {[ (3, 1)%Z ]} ].
Proof.
  apply (merge_idempotent [ {[ (0, 0)%Z; (1, 0)%Z; (2, 0)%Z ]}; {[ (3, 1)%Z ]} ]).
  rewrite <- merge_joins_fragments. apply merge_merged.
Defined.

(** * Further properties of the scripts *)

(** ** The projector on and off the window *)

Lemma Qdiv_mult_lt (u v d W : Q) :
  0 < d -> 0 < W -> (u < v <-> u / d * W < v / d * W).
Proof.
  intros Hd HW. unfold Qdiv.
  rewrite (Qmult_lt_r _ _ W HW).
  rewrite (Qmult_lt_r _ _ (/ d)); [reflexivity|].
  now apply Qinv_lt_0_compat.
Qed.

Lemma Qdiv_unit_interval (u d : Q) :
  0 < d -> 0 <= u -> u <= d -> 0 <= u / d /\ u / d <= 1.
Proof.
  intros Hd H0 H1. split.
  - apply Qle_shift_div_l; [exact Hd|]. now rewrite Qmult_0_l.
  - apply Qle_shift_div_r; [exact Hd|]. now rewrite Qmult_1_l.
Qed.

Lemma Qlt_minus_pos (a b : Q) : a < b -> 0 < b - a.
Proof. intros H. apply (Qplus_lt_l _ _ a). now ring_simplify. Qed.

Lemma Qle_minus_nonneg (a b : Q) : a <= b -> 0 <= b - a.
Proof. intros H. apply (Qplus_le_l _ _ a). now ring_simplify. Qed.

Lemma projection_inside (lon lat west south east north W H : Q) :
  west < east -> south < north -> 0 <= W -> 0 <= H ->
  west <= lon -> lon <= east -> south <= lat -> lat <= north ->
  exists x y,
    coords_to_svg lon lat west east north south W H = Ok (x, y)
    /\ 0 <= x /\ x <= W /\ 0 <= y /\ y <= H.
Proof.
  intros Hwe Hsn HW HH Hw He Hs Hn.
  pose proof (Qlt_minus_nonzero _ _ Hwe) as Hx.
  pose proof (Qlt_minus_nonzero _ _ Hsn) as Hy.
  eexists; eexists. split; [now apply coords_to_svg_ok|].
  destruct (Qdiv_unit_interval (lon - west) (east - west)) as [Hx0 Hx1].
  { now apply Qlt_minus_pos. }
  { now apply Qle_minus_nonneg. }
  { apply Qplus_le_l. exact He. }
  destruct (Qdiv_unit_interval (north - lat) (north - south)) as [Hy0 Hy1].
  { now apply Qlt_minus_pos. }
  { now apply Qle_minus_nonneg. }
  { apply Qplus_le_r. now apply Qopp_le_compat. }
  repeat split.
  - now apply Qmult_le_0_compat.
  - rewrite <- (Qmult_1_l W) at 2. now apply Qmult_le_compat_r.
  - now apply Qmult_le_0_compat.
  - rewrite <- (Qmult_1_l H) at 2. now apply Qmult_le_compat_r.
Qed.

(** X1.  A point inside the window is drawn inside the canvas: with
    [west <= lon <= east] and [south <= lat <= north] the projector returns
    [(x, y)] with [0 <= x <= W] and [0 <= y <= H]. *)
Theorem coords_to_svg_inside (lon lat west south east north W H : Q) :
  west < east -> south < north -> 0 <= W -> 0 <= H ->
  west <= lon -> lon <= east -> south <= lat -> lat <= north ->
  exists x y,
    coords_to_svg lon lat west east north south W H = Ok (x, y)
    /\ 0 <= x /\ x <= W /\ 0 <= y /\ y <= H.
Proof. apply projection_inside. Qed.

(** The three study sites lie in the window of the scripts, so on its canvas. *)
Lemma coords_to_svg_inside_witness :
  exists x y,
    coords_to_svg (315833 # 10000) (-167833 # 10000) 10 40 (-5) (-35) 1200 900
    = Ok (x, y)
    /\ 0 <= x /\ x <= 1200 /\ 0 <= y /\ y <= 900.
Proof.
  apply (coords_to_svg_inside (315833 # 10000) (-167833 # 10000) 10 (-35) 40 (-5)
           1200 900); by_evaluation.
Defined.

(** X2.  The canvas is not mirrored in longitude and is inverted in latitude:
    of two points, one that is not further west is not drawn further left,
    and one that is not further south is not drawn further down (its [y] is
    not larger); conversely a point drawn strictly further right lies strictly
    further east, and one drawn strictly further up lies strictly further
    north. *)
Theorem coords_to_svg_orientation
    (lon1 lat1 lon2 lat2 west south east north W H : Q) :
  west < east -> south < north -> 0 < W -> 0 < H ->
  exists x1 y1 x2 y2,
    coords_to_svg lon1 lat1 west east north south W H = Ok (x1, y1)
    /\ coords_to_svg lon2 lat2 west east north south W H = Ok (x2, y2)
    /\ (lon1 <= lon2 -> x1 <= x2)
    /\ (x1 < x2 -> lon1 < lon2)
    /\ (lat1 <= lat2 -> y2 <= y1)
    /\ (y2 < y1 -> lat1 < lat2).
Proof.
  intros Hwe Hsn HW HH.
  pose proof (Qlt_minus_nonzero _ _ Hwe) as Hx.
  pose proof (Qlt_minus_nonzero _ _ Hsn) as Hy.
  do 4 eexists. split; [now apply coords_to_svg_ok|].
  split; [now apply coords_to_svg_ok|].
  assert (Hlon : lon1 < lon2
                 <-> (lon1 - west) / (east - west) * W
                     < (lon2 - west) / (east - west) * W).
  { rewrite <- (Qdiv_mult_lt _ _ _ _ (Qlt_minus_pos _ _ Hwe) HW).
    split; intros Hlt.
    - now apply Qplus_lt_l.
    - now apply Qplus_lt_l in Hlt. }
  assert (Hlon' : lon2 < lon1
                  <-> (lon2 - west) / (east - west) * W
                      < (lon1 - west) / (east - west) * W).
  { rewrite <- (Qdiv_mult_lt _ _ _ _ (Qlt_minus_pos _ _ Hwe) HW).
    split; intros Hlt.
    - now apply Qplus_lt_l.
    - now apply Qplus_lt_l in Hlt. }
  assert (Hlat : lat1 < lat2
                 <-> (north - lat2) / (north - south) * H
                     < (north - lat1) / (north - south) * H).
  { rewrite <- (Qdiv_mult_lt _ _ _ _ (Qlt_minus_pos _ _ Hsn) HH).
    split; intros Hlt.
    - apply Qplus_lt_r. now apply Qopp_lt_compat.
    - apply Qplus_lt_r in Hlt. apply Qopp_lt_compat in Hlt.
      now rewrite !Qopp_involutive in Hlt. }
  assert (Hlat' : lat2 < lat1
                  <-> (north - lat1) / (north - south) * H
                      < (north - lat2) / (north - south) * H).
  { rewrite <- (Qdiv_mult_lt _ _ _ _ (Qlt_minus_pos _ _ Hsn) HH).
    split; intros Hlt.
    - apply Qplus_lt_r. now apply Qopp_lt_compat.
    - apply Qplus_lt_r in Hlt. apply Qopp_lt_compat in Hlt.
      now rewrite !Qopp_involutive in Hlt. }
  split; [|split; [|split]].
  - intros Hle. apply Qnot_lt_le. intros Hlt. apply Hlon' in Hlt.
    now apply (Qlt_not_le _ _ Hlt).
  - apply Hlon.
  - intros Hle. apply Qnot_lt_le. intros Hlt. apply Hlat' in Hlt.
    now apply (Qlt_not_le _ _ Hlt).
  - apply Hlat.
Qed.

Lemma coords_to_svg_orientation_witness :
  exists x1 y1 x2 y2,
    coords_to_svg (184241 # 10000) (-339249 # 10000) 10 40 (-5) (-35) 1200 900
    = Ok (x1, y1)
    /\ coords_to_svg (350055 # 10000) (-157870 # 10000) 10 40 (-5) (-35) 1200 900
       = Ok (x2, y2)
    /\ (184241 # 10000 <= 350055 # 10000 -> x1 <= x2)
    /\ (x1 < x2 -> 184241 # 10000 < 350055 # 10000)
    /\ (-339249 # 10000 <= -157870 # 10000 -> y2 <= y1)
    /\ (y2 < y1 -> -339249 # 10000 < -157870 # 10000).
Proof.
  apply (coords_to_svg_orientation (184241 # 10000) (-339249 # 10000)
           (350055 # 10000) (-157870 # 10000) 10 (-35) 40 (-5) 1200 900);
    by_evaluation.
Defined.

(** X3.  The projector raises exactly on a degenerate window, [east = west]
    or [north = south], and then a [ZeroDivisionError]; it raises nothing
    else. *)
Theorem coords_to_svg_raises_iff (lon lat west east north south W H : Q) :
  (coords_to_svg lon lat west east north south W H = Raise ZeroDivisionError
   <-> east - west == 0 \/ north - south == 0)
  /\ (forall e, coords_to_svg lon lat west east north south W H = Raise e ->
        e = ZeroDivisionError).
Proof.
  destruct (Qeq_dec (east - west) 0) as [Hx|Hx].
  - rewrite (coords_to_svg_degenerate _ _ _ _ _ _ _ _ (or_introl Hx)).
    split; [tauto|]. now intros e [= <-].
  - destruct (Qeq_dec (north - south) 0) as [Hy|Hy].
    + rewrite (coords_to_svg_degenerate lon lat west east north south W H (or_intror Hy)).
      split; [tauto|]. now intros e [= <-].
    + rewrite (coords_to_svg_ok lon lat west east north south W H Hx Hy).
      split; [|discriminate]. split; [discriminate|tauto].
Qed.

(** ** The order and the extent of the class loop *)

Lemma insert_unique_sorted (v : Z) (l : list Z) :
  StronglySorted Z.lt l -> StronglySorted Z.lt (insert_unique v l).
Proof.
  induction 1 as [|x l Hsorted IH Hall]; cbn; [repeat constructor|].
  destruct (Z.ltb_spec v x) as [Hlt|Hge].
  - constructor; [now constructor|]. constructor; [exact Hlt|].
    eapply Forall_impl; [exact Hall|]. cbn. intros y Hy. lia.
  - destruct (Z.eqb_spec v x) as [Heq|Hne]; [now constructor|].
    constructor; [exact IH|]. apply Forall_forall. intros y Hy.
    apply elem_of_insert_unique in Hy as [->|Hy]; [lia|].
    rewrite Forall_forall in Hall. now apply Hall.
Qed.

Lemma np_unique_sorted (l : list Z) : StronglySorted Z.lt (np_unique l).
Proof.
  induction l as [|v l IH]; cbn; [constructor|]. now apply insert_unique_sorted.
Qed.

Lemma insert_sorted_least (v : Z) (l : list Z) :
  Forall (Z.lt v) l -> insert_sorted v l = v :: l.
Proof.
  destruct l as [|x l]; cbn; [reflexivity|].
  intros Hall. apply Forall_cons in Hall as [Hlt _].
  now apply Z.ltb_lt in Hlt as ->.
Qed.

(** [sorted] leaves an ascending list as it is. *)
Lemma sorted_of_sorted (l : list Z) : StronglySorted Z.lt l -> sorted l = l.
Proof.
  induction 1 as [|x l _ IH Hall]; [reflexivity|].
  change (sorted (x :: l)) with (insert_sorted x (sorted l)).
  rewrite IH. now apply insert_sorted_least.
Qed.

Lemma loop_classes_unique (data : Grid) :
  sorted (np_unique (positive_values data)) = np_unique (positive_values data).
Proof. apply sorted_of_sorted, np_unique_sorted. Qed.

Lemma StronglySorted_lt_filter (f : Z -> bool) (l : list Z) :
  StronglySorted Z.lt l -> StronglySorted Z.lt (List.filter f l).
Proof.
  induction 1 as [|x l _ IH Hall]; cbn; [constructor|].
  destruct (f x); [|exact IH]. constructor; [exact IH|].
  apply Forall_forall. intros y Hy. apply list_elem_of_In, filter_In in Hy as [Hy _].
  rewrite Forall_forall in Hall. now apply Hall, list_elem_of_In.
Qed.

Section ClassLoopOrder.

Variable B : Backend.
Variable koppen_colors : gmap Z string.
Variable min_area : Q.
Variable digits : nat.
Variable verbose : bool.
Variable error_prefix : string.
Variable data : Grid.
Variable transform : Affine.
Variable fr : Frame.

Lemma process_zone_is_Some (cv : Z) :
  match process_zone B koppen_colors min_area digits verbose error_prefix
          data transform fr cv with
  | Some z => zone_class z = cv /\ is_Some (koppen_colors !! cv)
  | None => koppen_colors !! cv = None
  end.
Proof.
  unfold process_zone.
  destruct (koppen_colors !! cv) as [fill|] eqn:Hfill; [|reflexivity].
  destruct (collect_polygons B min_area _) as [|p polys]; [now split; eauto|].
  destruct (unary_union B (p :: polys)) as [m|e]; cbn.
  - destruct (add_paths digits verbose cv fill fr (polygons_of m)). now split; eauto.
  - now split; eauto.
Qed.

Lemma omap_process_zone_classes (classes : list Z) :
  map zone_class
    (omap (process_zone B koppen_colors min_area digits verbose error_prefix
             data transform fr) classes)
  = List.filter (fun c => bool_decide (is_Some (koppen_colors !! c))) classes.
Proof.
  induction classes as [|cv classes IH]; cbn; [reflexivity|].
  pose proof (process_zone_is_Some cv) as Hz.
  destruct (process_zone B koppen_colors min_area digits verbose error_prefix
              data transform fr cv) as [z|]; cbn.
  - destruct Hz as [-> Hsome]. rewrite (bool_decide_eq_true_2 _ Hsome).
    cbn. now rewrite IH.
  - rewrite Hz. rewrite bool_decide_eq_false_2 by (intros [? ?]; discriminate).
    exact IH.
Qed.

Lemma class_loop_classes :
  map zone_class
    (class_loop B koppen_colors min_area digits verbose error_prefix
       data transform fr)
  = List.filter (fun c => bool_decide (is_Some (koppen_colors !! c)))
      (np_unique (positive_values data)).
Proof.
  unfold class_loop. rewrite loop_classes_unique. apply omap_process_zone_classes.
Qed.

(** The classes of the paths, zone after zone. *)
Lemma drawn_paths_classes (zones : list Zone) :
  Forall (fun z => Forall (fun pr => pr_class pr = zone_class z) (zone_paths z)) zones ->
  StronglySorted Z.lt (map zone_class zones) ->
  StronglySorted Z.le (map pr_class (drawn_paths zones)).
Proof.
  unfold drawn_paths.
  induction zones as [|z zones IH]; cbn; [constructor|].
  intros Htags Hsorted.
  apply Forall_cons in Htags as [Htag Htags].
  apply StronglySorted_inv in Hsorted as [Hsorted Hall].
  rewrite map_app. apply StronglySorted_app_2.
  - intros c1 c2 Hc1 Hc2.
    apply list_elem_of_In, in_map_iff in Hc1 as (pr1 & <- & Hin1).
    apply list_elem_of_In, in_map_iff in Hc2 as (pr2 & <- & Hin2).
    apply in_concat in Hin2 as (prs & Hprs & Hin2).
    apply in_map_iff in Hprs as (z2 & <- & Hz2).
    pose proof (proj1 (List.Forall_forall _ _) Htag pr1 Hin1) as H1.
    pose proof (proj1 (List.Forall_forall _ _) Htags z2 Hz2) as Htag2.
    pose proof (proj1 (List.Forall_forall _ _) Htag2 pr2 Hin2) as H2.
    pose proof (proj1 (List.Forall_forall _ _) Hall (zone_class z2)
                  (in_map zone_class zones z2 Hz2)) as Hlt.
    cbn in H1, H2. lia.
  - clear -Htag. induction (zone_paths z) as [|pr prs IHp]; cbn; [constructor|].
    apply Forall_cons in Htag as [Hpr Hprs].
    constructor; [now apply IHp|]. apply Forall_forall. intros c Hc.
    apply list_elem_of_In, in_map_iff in Hc as (pr' & <- & Hin).
    pose proof (proj1 (List.Forall_forall _ _) Hprs pr' Hin) as H'.
    cbn in H'. lia.
  - now apply IH.
Qed.

(** What an iteration leaves when its merge did not return. *)
Lemma process_zone_failure (cv : Z) (z : Zone) :
  process_zone B koppen_colors min_area digits verbose error_prefix
    data transform fr cv = Some z ->
  match zone_merged z with
  | Some m => unary_union B (zone_polygons z) = Ok m
  | None =>
      zone_paths z = []
      /\ ((zone_polygons z = [] /\ zone_stdout z = [])
          \/ exists e,
               unary_union B (zone_polygons z) = Raise e
               /\ zone_stdout z
                  = [error_prefix +:+ py_str (zone_class z) +:+ ": "
                     +:+ exn_message e])
  end.
Proof.
  unfold process_zone.
  destruct (koppen_colors !! cv) as [fill|]; [|discriminate].
  destruct (collect_polygons B min_area _) as [|p polys] eqn:Hc.
  - intros [= <-]. cbn. split; [reflexivity|]. now left.
  - destruct (unary_union B (p :: polys)) as [m|e] eqn:Hu; cbn.
    + destruct (add_paths digits verbose cv fill fr (polygons_of m)).
      intros [= <-]. cbn. exact Hu.
    + intros [= <-]. cbn. split; [reflexivity|]. right. now exists e.
Qed.

End ClassLoopOrder.

(** X5.  The class loop of [create_vectorized_svg] has one iteration for each
    distinct positive code of the raster that has a colour, and for no other
    code, whatever the libraries return: a merge that raises does not stop
    the loop.  A raster with no positive code gets no iteration and no
    path. *)
Theorem class_loop_extent (B : Backend) (data : Grid) (transform : Affine) :
  map zone_class (Vector.create_vectorized_svg B data transform)
  = List.filter (fun c => bool_decide (is_Some (Vector.koppen_colors !! c)))
      (np_unique (positive_values data))
  /\ (positive_values data = [] ->
      Vector.create_vectorized_svg B data transform = []).
Proof.
  split; [apply class_loop_classes|].
  intros Hnone. unfold Vector.create_vectorized_svg, class_loop.
  now rewrite Hnone.
Qed.

Lemma vector_zone_tags (B : Backend) (data : Grid) (transform : Affine) :
  Forall (fun z => Forall (fun pr => pr_class pr = zone_class z) (zone_paths z))
    (Vector.create_vectorized_svg B data transform).
Proof.
  unfold Vector.create_vectorized_svg.
  apply Forall_forall. intros z Hz. apply class_loop_zone_ok in Hz as Hok.
  apply Forall_forall. intros pr Hpr.
  now destruct (zone_path_inv _ _ _ _ _ _ _ _ z pr Hok Hpr)
    as (m & poly & _ & _ & _ & _ & Hclass & _).
Qed.

(** X6.  The class loop runs in ascending class order, each class once, so
    the paths of the drawing come grouped by class, the classes never
    descending. *)
Theorem class_loop_ascending (B : Backend) (data : Grid) (transform : Affine) :
  let zones := Vector.create_vectorized_svg B data transform in
  StronglySorted Z.lt (map zone_class zones)
  /\ StronglySorted Z.le (map pr_class (drawn_paths zones)).
Proof.
  cbv zeta.
  assert (Hsorted : StronglySorted Z.lt
                      (map zone_class (Vector.create_vectorized_svg B data transform))).
  { unfold Vector.create_vectorized_svg. rewrite class_loop_classes.
    apply StronglySorted_lt_filter, np_unique_sorted. }
  split; [exact Hsorted|].
  apply drawn_paths_classes; [|exact Hsorted].
  apply vector_zone_tags.
Qed.

(** X7.  A merge that raises is reported and costs only its class: the
    iteration draws no path and prints the one line
    ["Error processing climate zone <class>: <message>"].  An iteration
    without a merge result is either that, or one whose fragments were all
    filtered out, which prints nothing; with a merge result, the result is
    what [unary_union] returned on the kept fragments. *)
Theorem merge_failure_reported (B : Backend) (data : Grid) (transform : Affine) :
  Forall
    (fun z =>
       match zone_merged z with
       | Some m => unary_union B (zone_polygons z) = Ok m
       | None =>
           zone_paths z = []
           /\ ((zone_polygons z = [] /\ zone_stdout z = [])
               \/ exists e,
                    unary_union B (zone_polygons z) = Raise e
                    /\ zone_stdout z
                       = ["Error processing climate zone "
                          +:+ py_str (zone_class z) +:+ ": " +:+ exn_message e])
       end)
    (Vector.create_vectorized_svg B data transform).
Proof.
  unfold Vector.create_vectorized_svg. apply Forall_forall. intros z Hz.
  apply elem_of_class_loop in Hz as (cv & _ & _ & Hz).
  exact (process_zone_failure _ _ _ _ _ _ _ _ _ cv z Hz).
Qed.

(** ** Diagnostics of the path serializer *)

(** X8.  In a degenerate frame a polygon that passes the guards is not
    drawn: [create_svg_path] of [create_vector_koppen_svg.py] returns [None]
    and prints ["Error creating SVG path: float division by zero"], that of
    [create_final_scientific_koppen.py] returns [None] and prints nothing. *)
Theorem create_svg_path_degenerate (polygon : Polygon) (fr : Frame) :
  is_empty polygon = false -> 1 # 1000 <= area polygon -> degenerate fr ->
  Vector.create_svg_path polygon fr
  = (None, ["Error creating SVG path: float division by zero"%string])
  /\ Final.create_svg_path polygon fr = (None, []).
Proof.
  intros Hne Harea Hdeg.
  unfold Vector.create_svg_path, Final.create_svg_path, create_svg_path_with.
  now rewrite !(create_svg_path_try_raises _ polygon fr Hne Harea Hdeg).
Qed.

Lemma create_svg_path_degenerate_witness :
  Vector.create_svg_path square_with_hole (mkFrame 10 10 (-5) (-35) 1200 900)
  = (None, ["Error creating SVG path: float division by zero"%string])
  /\ Final.create_svg_path square_with_hole (mkFrame 10 10 (-5) (-35) 1200 900)
     = (None, []).
Proof.
  apply (create_svg_path_degenerate square_with_hole (mkFrame 10 10 (-5) (-35) 1200 900));
    [by_evaluation | by_evaluation | left; by_evaluation].
Defined.

(** ** The site overlay of [create_vectorized_svg] *)

Lemma inject_Z_half_even (n : Z) : inject_Z (n * 8 / 2) == 4 * inject_Z n.
Proof.
  replace (n * 8)%Z with (n * 4 * 2)%Z by ring.
  rewrite Z.div_mul by discriminate. rewrite inject_Z_mult. ring.
Qed.

(** X9.  A site is drawn where the projector puts it; its label box is
    centred on the marker, [8] units wide per character of the name, and the
    anchor of the label text lies on the marker's vertical and inside the
    box.  Without [show_labels] the marker is all that is drawn. *)
Theorem vector_site_label_centred (fr : Frame) (site : Site) (x y : Q) :
  project fr (site_lon site, site_lat site) = Ok (x, y) ->
  exists ins sz,
    Vector.site_elements true fr site
    = Ok [ ECircle (x, y) 8 "#000"; ERect ins sz "white";
           EText (site_name site) (x, y - 12) "#000" ]
    /\ Vector.site_elements false fr site = Ok [ECircle (x, y) 8 "#000"]
    /\ fst ins + fst sz / 2 == x
    /\ fst sz == 8 * inject_Z (py_len (site_name site))
    /\ snd ins <= y - 12
    /\ y - 12 <= snd ins + snd sz.
Proof.
  intros Hxy. unfold Vector.site_elements. rewrite Hxy. cbn.
  eexists; eexists. split; [reflexivity|]. split; [reflexivity|].
  cbn [fst snd]. rewrite inject_Z_half_even.
  assert (Hw : inject_Z (py_len (site_name site) * 8)
               == 8 * inject_Z (py_len (site_name site)))
    by (rewrite inject_Z_mult; ring).
  split; [rewrite Hw; field|]. split; [exact Hw|].
  split.
  - apply (Qplus_le_l _ _ (25 - y)). ring_simplify. discriminate.
  - apply (Qplus_le_l _ _ (12 - y)). ring_simplify. discriminate.
Qed.

Lemma vector_site_label_centred_witness :
  exists ins sz,
    Vector.site_elements true southern_africa
      (mkSite "Cape Town" (-339249 # 10000) (184241 # 10000))
    = Ok [ ECircle (canvas_point southern_africa (184241 # 10000, -339249 # 10000))
             8 "#000";
           ERect ins sz "white";
           EText "Cape Town"
             (fst (canvas_point southern_africa (184241 # 10000, -339249 # 10000)),
              snd (canvas_point southern_africa (184241 # 10000, -339249 # 10000)) - 12)
             "#000" ]
    /\ Vector.site_elements false southern_africa
         (mkSite "Cape Town" (-339249 # 10000) (184241 # 10000))
       = Ok [ ECircle (canvas_point southern_africa (184241 # 10000, -339249 # 10000))
                8 "#000" ]
    /\ fst ins + fst sz / 2
       == fst (canvas_point southern_africa (184241 # 10000, -339249 # 10000))
    /\ fst sz == 8 * inject_Z (py_len "Cape Town")
    /\ snd ins
       <= snd (canvas_point southern_africa (184241 # 10000, -339249 # 10000)) - 12
    /\ snd (canvas_point southern_africa (184241 # 10000, -339249 # 10000)) - 12
       <= snd ins + snd sz.
Proof.
  apply (vector_site_label_centred southern_africa
           (mkSite "Cape Town" (-339249 # 10000) (184241 # 10000))
           (fst (canvas_point southern_africa (184241 # 10000, -339249 # 10000)))
           (snd (canvas_point southern_africa (184241 # 10000, -339249 # 10000)))).
  reflexivity.
Defined.

(** ** The whole drawing of [create_vectorized_svg] *)

Lemma vector_site_elements_ok (show_labels : bool) (fr : Frame) (site : Site) :
  ~ degenerate fr ->
  exists elements,
    Vector.site_elements show_labels fr site = Ok elements
    /\ element_paths elements = []
    /\ count_elements is_circle elements = 1%nat
    /\ count_elements is_text elements = (if show_labels then 1 else 0)%nat
    /\ count_elements is_rect elements = (if show_labels then 1 else 0)%nat.
Proof.
  intros Hdeg. unfold Vector.site_elements.
  rewrite project_ok
    by (intros H; apply Hdeg; first [left; exact H | right; exact H]).
  cbn. destruct show_labels; eexists; (split; [reflexivity|]); now cbn.
Qed.

Lemma vector_sites_loop_ok (show_labels : bool) (fr : Frame) (sites : list Site) :
  ~ degenerate fr ->
  forall dwg, exists elements,
    Vector.sites_loop show_labels fr sites dwg = Ok (dwg ++ elements)
    /\ element_paths elements = []
    /\ count_elements is_circle elements = length sites
    /\ count_elements is_text elements
       = (if show_labels then length sites else 0)%nat
    /\ count_elements is_rect elements
       = (if show_labels then length sites else 0)%nat.
Proof.
  intros Hdeg. induction sites as [|site sites IH]; intros dwg; cbn.
  - exists []. rewrite app_nil_r. now destruct show_labels.
  - destruct (vector_site_elements_ok show_labels fr site Hdeg)
      as (els & -> & Hp & Hc & Ht & Hr). cbn.
    destruct (IH (dwg ++ els)) as (rest & -> & Hp' & Hc' & Ht' & Hr').
    exists (els ++ rest). rewrite <- app_assoc. split; [reflexivity|].
    rewrite element_paths_app, !count_elements_app, Hp, Hp', Hc, Hc', Ht, Ht', Hr, Hr'.
    now destruct show_labels.
Qed.

Lemma vector_sites_loop_raises (show_labels : bool) (fr : Frame) (site : Site)
    (sites : list Site) (dwg : list Element) :
  degenerate fr ->
  Vector.sites_loop show_labels fr (site :: sites) dwg = Raise ZeroDivisionError.
Proof.
  intros Hdeg. cbn. unfold Vector.site_elements.
  now rewrite (project_degenerate fr _ Hdeg).
Qed.

(** X10.  The three variants of a map differ in the overlay only.  Whenever
    the drawing is saved, its paths are the paths of the class loop, in that
    order, for every title and every choice of [show_sites] and
    [show_labels]; it has one marker per study site with [show_sites] and
    none without; and it has a label box and a label per site only with both
    flags: [show_labels] without [show_sites] draws nothing.  The background
    comes first, the title box and the title are always there. *)
Theorem svg_document_variants (B : Backend) (data : Grid) (transform : Affine)
    (title : string) (show_sites show_labels : bool) (doc : list Element) :
  Vector.svg_document B data transform title show_sites show_labels = Ok doc ->
  element_paths doc = drawn_paths (Vector.create_vectorized_svg B data transform)
  /\ count_elements is_circle doc
     = (if show_sites then length study_sites else 0)%nat
  /\ count_elements is_text doc
     = (1 + if show_sites && show_labels then length study_sites else 0)%nat
  /\ count_elements is_rect doc
     = (2 + if show_sites && show_labels then length study_sites else 0)%nat
  /\ head doc = Some (ERect (0, 0) (Vector.svg_width, Vector.svg_height) "#e6f3ff").
Proof.
  unfold Vector.svg_document.
  set (fr := window_frame transform data Vector.svg_width Vector.svg_height).
  set (paths := drawn_paths (Vector.create_vectorized_svg B data transform)).
  set (bg := ERect (0, 0) (Vector.svg_width, Vector.svg_height) "#e6f3ff").
  assert (Hbg : element_paths [bg] = []
                /\ count_elements is_circle [bg] = 0%nat
                /\ count_elements is_text [bg] = 0%nat
                /\ count_elements is_rect [bg] = 1%nat) by (repeat split).
  destruct Hbg as (Hbp & Hbc & Hbt & Hbr).
  assert (Htitle : element_paths (Vector.title_elements title) = []
                   /\ count_elements is_circle (Vector.title_elements title) = 0%nat
                   /\ count_elements is_text (Vector.title_elements title) = 1%nat
                   /\ count_elements is_rect (Vector.title_elements title) = 1%nat)
    by (repeat split).
  destruct Htitle as (Htp & Htc & Htt & Htr).
  destruct show_sites.
  - destruct (degenerate_dec fr) as [Hdeg|Hdeg].
    { unfold study_sites. now rewrite (vector_sites_loop_raises _ fr _ _ _ Hdeg). }
    destruct (vector_sites_loop_ok show_labels fr study_sites Hdeg
                ([bg] ++ map (fun pr => EPath pr None) paths))
      as (els & -> & Hp & Hc & Ht & Hr).
    unfold mbind, result_bind. intros [= <-].
    split; [|split; [|split; [|split; [|reflexivity]]]];
      change (bg :: ?l) with ([bg] ++ l);
      rewrite ?element_paths_app, ?count_elements_app, ?element_paths_map;
      rewrite ?count_elements_paths by reflexivity;
      rewrite ?Hbp, ?Hbc, ?Hbt, ?Hbr, ?Htp, ?Htc, ?Htt, ?Htr, ?Hp, ?Hc, ?Ht, ?Hr;
      cbn; rewrite ?app_nil_r; now destruct show_labels.
  - unfold mbind, result_bind. intros [= <-].
    split; [|split; [|split; [|split; [|reflexivity]]]];
      change (bg :: ?l) with ([bg] ++ l);
      rewrite ?element_paths_app, ?count_elements_app, ?element_paths_map;
      rewrite ?count_elements_paths by reflexivity;
      rewrite ?Hbp, ?Hbc, ?Hbt, ?Hbr, ?Htp, ?Htc, ?Htt, ?Htr;
      cbn; now rewrite ?app_nil_r.
Qed.

Lemma svg_document_variants_witness :
  exists doc,
    Vector.svg_document one_cell_backend [[10%Z]] degree_cells "1991-2020 (Baseline)"
      true true = Ok doc
    /\ element_paths doc
       = drawn_paths (Vector.create_vectorized_svg one_cell_backend [[10%Z]] degree_cells)
    /\ count_elements is_circle doc = length study_sites
    /\ count_elements is_text doc = (1 + length study_sites)%nat
    /\ count_elements is_rect doc = (2 + length study_sites)%nat
    /\ head doc = Some (ERect (0, 0) (Vector.svg_width, Vector.svg_height) "#e6f3ff").
Proof.
  eexists. split; [vm_compute; reflexivity|].
  apply (svg_document_variants one_cell_backend [[10%Z]] degree_cells
           "1991-2020 (Baseline)" true true).
  vm_compute. reflexivity.
Defined.

(** X11.  [create_vectorized_svg] fails exactly when it is asked for the
    sites on a degenerate window: the projection of the first site divides
    by zero outside every [try], and nothing is saved.  Without
    [show_sites] it always saves its drawing, degenerate window or not. *)
Theorem svg_document_raises_iff (B : Backend) (data : Grid) (transform : Affine)
    (title : string) (show_sites show_labels : bool) :
  let fr := window_frame transform data Vector.svg_width Vector.svg_height in
  (Vector.svg_document B data transform title show_sites show_labels
   = Raise ZeroDivisionError
   <-> show_sites = true /\ degenerate fr)
  /\ (forall e,
        Vector.svg_document B data transform title show_sites show_labels = Raise e ->
        e = ZeroDivisionError)
  /\ (grid_shape data = (O, O) -> show_sites = true ->
      Vector.svg_document B data transform title show_sites show_labels
      = Raise ZeroDivisionError).
Proof.
  cbv zeta. unfold Vector.svg_document.
  set (fr := window_frame transform data Vector.svg_width Vector.svg_height).
  set (dwg := [ERect (0, 0) (Vector.svg_width, Vector.svg_height) "#e6f3ff"] ++ _).
  assert (Hempty : grid_shape data = (O, O) -> degenerate fr).
  { intros Hshape. left. subst fr. unfold window_frame. rewrite Hshape.
    unfold affine_apply. cbn. ring. }
  destruct show_sites.
  - destruct (degenerate_dec fr) as [Hdeg|Hdeg].
    + unfold study_sites. rewrite (vector_sites_loop_raises _ fr _ _ _ Hdeg). cbn.
      split; [tauto|]. split; [now intros e [= <-]|reflexivity].
    + destruct (vector_sites_loop_ok show_labels fr study_sites Hdeg dwg)
        as (els & -> & _). cbn.
      split; [split; [discriminate|tauto]|]. split; [discriminate|].
      intros Hshape _. now destruct (Hdeg (Hempty Hshape)).
  - cbn. split; [split; [discriminate|intros [? _]; discriminate]|].
    split; discriminate.
Qed.

(** ** The panels of [create_optimized_scientific_layout] *)

Lemma inject_Z_half (n : Z) :
  inject_Z (n / 2) * 2 <= inject_Z n /\ inject_Z n <= inject_Z (n / 2) * 2 + 1.
Proof.
  change 2 with (inject_Z 2). change 1 with (inject_Z 1).
  rewrite <- inject_Z_mult, <- inject_Z_plus, <- !Zle_Qle.
  pose proof (Z.div_mod n 2). pose proof (Z.mod_pos_bound n 2). lia.
Qed.

(** X12.  In a panel a site label sits over its marker: the label box is as
    wide as [7] units per character plus [6], its centre is on the marker's
    vertical or half a unit to its right (the half width is rounded down),
    and the anchor of the label text is on that vertical and inside the
    box. *)
Theorem final_site_label_over_marker (fr : Frame) (i : nat) (site : Site) (x y : Q) :
  project fr (site_lon site, site_lat site) = Ok (x, y) ->
  exists ins sz,
    Final.site_elements true fr i site
    = Ok [ ECircle (Final.x_offset i + x, Final.y_offset + y) 8 "white";
           ERect ins sz "white";
           EText (site_name site) (Final.x_offset i + x, Final.y_offset + y - 12)
             "black" ]
    /\ Final.site_elements false fr i site
       = Ok [ECircle (Final.x_offset i + x, Final.y_offset + y) 8 "white"]
    /\ fst sz == 7 * inject_Z (py_len (site_name site)) + 6
    /\ Final.x_offset i + x <= fst ins + fst sz / 2
    /\ fst ins + fst sz / 2 <= Final.x_offset i + x + (1 # 2)
    /\ snd ins <= Final.y_offset + y - 12
    /\ Final.y_offset + y - 12 <= snd ins + snd sz.
Proof.
  intros Hxy. unfold Final.site_elements. rewrite Hxy. cbn.
  eexists; eexists. split; [reflexivity|]. split; [reflexivity|].
  cbn [fst snd].
  set (n := (py_len (site_name site) * 7)%Z).
  destruct (inject_Z_half n) as [Hlo Hhi].
  assert (Hw : inject_Z (n + 6) == inject_Z n + 6)
    by (rewrite inject_Z_plus; reflexivity).
  assert (Hn : inject_Z n == 7 * inject_Z (py_len (site_name site)))
    by (unfold n; rewrite inject_Z_mult; ring).
  split; [now rewrite Hw, Hn|].
  set (X := Final.x_offset i + x) in *. set (h := inject_Z (n / 2)) in *.
  generalize Final.y_offset. intros y0.
  clearbody X h. clear Hn. generalize dependent (inject_Z (n + 6)).
  generalize dependent (inject_Z n). intros qn Hlo Hhi qn6 Hw.
  unfold Qdiv. change (/ 2) with (1 # 2).
  split; [|split; [|split]]; lra.
Qed.

Lemma final_site_label_over_marker_witness :
  exists ins sz,
    Final.site_elements true southern_africa 1
      (mkSite "Cape Town" (-339249 # 10000) (184241 # 10000))
    = Ok [ ECircle (Final.x_offset 1 + (101089200 # 300000), Final.y_offset + (260324100 # 300000))
             8 "white";
           ERect ins sz "white";
           EText "Cape Town"
             (Final.x_offset 1 + (101089200 # 300000),
              Final.y_offset + (260324100 # 300000) - 12) "black" ]
    /\ Final.site_elements false southern_africa 1
         (mkSite "Cape Town" (-339249 # 10000) (184241 # 10000))
       = Ok [ ECircle (Final.x_offset 1 + (101089200 # 300000),
                       Final.y_offset + (260324100 # 300000)) 8 "white" ]
    /\ fst sz == 7 * inject_Z (py_len "Cape Town") + 6
    /\ Final.x_offset 1 + (101089200 # 300000) <= fst ins + fst sz / 2
    /\ fst ins + fst sz / 2 <= Final.x_offset 1 + (101089200 # 300000) + (1 # 2)
    /\ snd ins <= Final.y_offset + (260324100 # 300000) - 12
    /\ Final.y_offset + (260324100 # 300000) - 12 <= snd ins + snd sz.
Proof.
  apply (final_site_label_over_marker southern_africa 1
           (mkSite "Cape Town" (-339249 # 10000) (184241 # 10000))
           (101089200 # 300000) (260324100 # 300000)).
  vm_compute. reflexivity.
Defined.

Lemma inject_nat_le (i j : nat) :
  (i < j)%nat -> inject_Z (Z.of_nat i) + 1 <= inject_Z (Z.of_nat j).
Proof.
  intros Hlt. change 1 with (inject_Z 1).
  rewrite <- inject_Z_plus, <- Zle_Qle. lia.
Qed.

Lemma inject_nat_bound (j : nat) (k : Z) :
  (Z.of_nat j <= k)%Z -> 0 <= inject_Z (Z.of_nat j) /\ inject_Z (Z.of_nat j) <= inject_Z k.
Proof.
  intros Hle. split; [change 0 with (inject_Z 0)|]; rewrite <- Zle_Qle; lia.
Qed.

(** X13.  A site stays in its panel, and the panels keep apart and inside
    the canvas.  For every panel [i] and a site inside the window, the marker
    lies within the map area of the panel, so strictly inside its border; the
    border lies inside the canvas height, and inside the canvas width for
    each of the three panels; and the border of panel [i] ends before the
    border of every later panel begins. *)
Theorem final_marker_in_panel (i : nat) (site : Site) (w s e n : Q) :
  w < e -> s < n ->
  w <= site_lon site -> site_lon site <= e ->
  s <= site_lat site -> site_lat site <= n ->
  let fr := mkFrame w e n s Final.map_width Final.map_height in
  exists cx cy bx bw y0 h0,
    Final.site_elements false fr i site = Ok [ECircle (cx, cy) 8 "white"]
    /\ Final.panel_border i = ERect (bx, y0) (bw, h0) "none"
    /\ Final.x_offset i <= cx /\ cx <= Final.x_offset i + Final.map_width
    /\ Final.y_offset <= cy /\ cy <= Final.y_offset + Final.map_height
    /\ bx < cx /\ cx < bx + bw /\ y0 < cy /\ cy < y0 + h0
    /\ 0 <= bx /\ 0 <= y0 /\ y0 + h0 <= Final.total_height
    /\ ((i <= 2)%nat -> bx + bw <= Final.total_width)
    /\ (forall j : nat, (i < j)%nat ->
          exists bx' bw' y0' h0',
            Final.panel_border j = ERect (bx', y0') (bw', h0') "none"
            /\ bx + bw < bx').
Proof.
  intros Hwe Hsn Hw He Hs Hn. cbv zeta.
  destruct (projection_inside (site_lon site) (site_lat site) w s e n
              Final.map_width Final.map_height Hwe Hsn)
    as (x & y & Hxy & Hx0 & Hx1 & Hy0 & Hy1); try assumption; try discriminate.
  unfold Final.site_elements, project. cbn [west east north south svg_width svg_height fst snd].
  rewrite Hxy. unfold Final.panel_border.
  do 6 eexists. split; [reflexivity|]. split; [reflexivity|].
  destruct (inject_nat_bound i (Z.of_nat i)) as [Hi0 _]; [lia|].
  assert (Hwidth : (i <= 2)%nat -> inject_Z (Z.of_nat i) <= 2).
  { intros Hi. destruct (inject_nat_bound i 2) as [_ Hi2]; [lia|exact Hi2]. }
  assert (Hlater : forall j : nat, (i < j)%nat ->
                     inject_Z (Z.of_nat i) + 1 <= inject_Z (Z.of_nat j))
    by (intros j; apply inject_nat_le).
  unfold Final.x_offset, Final.y_offset, Final.side_margin, Final.top_margin,
    Final.map_spacing, Final.total_width, Final.total_height, Final.map_width,
    Final.map_height in *.
  generalize dependent (inject_Z (Z.of_nat i)). intros qi Hi0 Hwidth Hlater.
  do 11 (split; [lra|]). split.
  - intros Hi. specialize (Hwidth Hi). lra.
  - intros j Hj. do 4 eexists. split; [reflexivity|].
    specialize (Hlater j Hj). generalize dependent (inject_Z (Z.of_nat j)).
    intros qj Hqj. lra.
Qed.

(** Blantyre in the third panel. *)
Lemma final_marker_in_panel_witness :
  let fr := mkFrame 10 40 (-5) (-35) Final.map_width Final.map_height in
  exists cx cy bx bw y0 h0,
    Final.site_elements false fr 2
      (mkSite "Blantyre" (-157870 # 10000) (350055 # 10000))
    = Ok [ECircle (cx, cy) 8 "white"]
    /\ Final.panel_border 2 = ERect (bx, y0) (bw, h0) "none"
    /\ Final.x_offset 2 <= cx /\ cx <= Final.x_offset 2 + Final.map_width
    /\ Final.y_offset <= cy /\ cy <= Final.y_offset + Final.map_height
    /\ bx < cx /\ cx < bx + bw /\ y0 < cy /\ cy < y0 + h0
    /\ 0 <= bx /\ 0 <= y0 /\ y0 + h0 <= Final.total_height
    /\ ((2 <= 2)%nat -> bx + bw <= Final.total_width)
    /\ (forall j : nat, (2 < j)%nat ->
          exists bx' bw' y0' h0',
            Final.panel_border j = ERect (bx', y0') (bw', h0') "none"
            /\ bx + bw < bx').
Proof.
  apply (final_marker_in_panel 2
           (mkSite "Blantyre" (-157870 # 10000) (350055 # 10000)) 10 (-35) 40 (-5));
    by_evaluation.
Defined.

(** ** Legend and map colours *)

Lemma final_legend_fills :
  Forall (fun le => Final.koppen_colors !! Final.le_value le = Some (Final.le_fill le))
    Final.legend.
Proof. vm_compute. repeat constructor. Qed.

(** X14.  The legend and the maps agree on colours: every legend swatch is
    filled with the [koppen_colors] entry of its class, and so is every path,
    so a class drawn in a panel and listed in the legend has the same fill in
    both; the colour of the legend group ([group_info['color']]) is not used
    for any of them. *)
Theorem legend_matches_map_fill (B : Backend) (tifs : list (option (Grid * Affine)))
    (show_sites show_labels : bool) :
  match Final.create_optimized_scientific_layout B tifs show_sites show_labels with
  | Ok layout =>
      Forall
        (fun le => Final.koppen_colors !! Final.le_value le = Some (Final.le_fill le))
        (Final.layout_legend layout)
      /\ Forall
           (fun pr =>
              Final.koppen_colors !! pr_class pr = Some (pr_fill pr)
              /\ Forall
                   (fun le => Final.le_value le = pr_class pr ->
                              Final.le_fill le = pr_fill pr)
                   (Final.layout_legend layout))
           (Final.layout_paths layout)
  | Raise _ => True
  end.
Proof.
  destruct (Final.create_optimized_scientific_layout B tifs show_sites show_labels)
    as [layout|e] eqn:Hl; [|exact I].
  destruct (final_layout_inv B tifs show_sites show_labels layout Hl) as [Hlegend _].
  rewrite Hlegend. split; [apply final_legend_fills|].
  apply Forall_forall. intros pr Hpr.
  destruct (final_layout_path_inv B tifs show_sites show_labels layout pr Hl Hpr)
    as (data & transform & Hin).
  unfold Final.panel in Hin.
  apply elem_of_drawn_paths in Hin as (z & Hz & Hin).
  apply class_loop_zone_ok in Hz as Hok.
  destruct (zone_path_inv _ _ _ _ _ _ _ _ z pr Hok Hin)
    as (m & poly & _ & _ & _ & _ & Hclass & Hfill).
  rewrite <- Hclass in Hfill. split; [exact Hfill|].
  apply Forall_forall. intros le Hle Heq.
  pose proof (proj1 (Forall_forall _ _) final_legend_fills le Hle) as Hle'.
  cbv beta in Hle'. rewrite Heq in Hle'. congruence.
Qed.

(** ** The metadata of [koppen_with_labels.py] *)

Lemma count_occ_sum_cons (x : Z) (l u : list Z) :
  list_sum (map (count_occ Z.eq_dec (x :: l)) u)
  = (count_occ Z.eq_dec u x + list_sum (map (count_occ Z.eq_dec l) u))%nat.
Proof.
  induction u as [|c u IH]; [reflexivity|].
  cbn [map].
  change (list_sum (count_occ Z.eq_dec (x :: l) c
                    :: map (count_occ Z.eq_dec (x :: l)) u))
    with (count_occ Z.eq_dec (x :: l) c
          + list_sum (map (count_occ Z.eq_dec (x :: l)) u))%nat.
  change (list_sum (count_occ Z.eq_dec l c :: map (count_occ Z.eq_dec l) u))
    with (count_occ Z.eq_dec l c + list_sum (map (count_occ Z.eq_dec l) u))%nat.
  rewrite IH. cbn [count_occ].
  destruct (Z.eq_dec x c) as [->|Hne].
  - destruct (Z.eq_dec c c) as [_|Hcc]; [lia|contradiction].
  - destruct (Z.eq_dec c x) as [Heq|_]; [now symmetry in Heq|lia].
Qed.

(** Counting a list class by class, over a list of its distinct values. *)
Lemma count_occ_sum (l u : list Z) :
  List.NoDup u -> (forall x, In x l -> In x u) ->
  list_sum (map (count_occ Z.eq_dec l) u) = length l.
Proof.
  intros Hnodup. induction l as [|x l IH]; intros Hall.
  - cbn. clear. induction u as [|c u IHu]; [reflexivity|exact IHu].
  - rewrite count_occ_sum_cons, IH by (intros y Hy; apply Hall; now right).
    assert (Hx : In x u) by (apply Hall; now left).
    rewrite (proj1 (List.NoDup_count_occ' Z.eq_dec u) Hnodup x Hx). reflexivity.
Qed.

Lemma StronglySorted_lt_NoDup (l : list Z) : StronglySorted Z.lt l -> List.NoDup l.
Proof.
  induction 1 as [|x l _ IH Hall]; constructor; [|exact IH].
  intros Hin. rewrite List.Forall_forall in Hall. specialize (Hall x Hin). lia.
Qed.

(** X15.  The zones of the metadata account for every polygon once: the
    entries are written by ascending class code, one per distinct code of
    the data, each with a count of at least one, and the counts add up to
    the number of polygons. *)
Theorem climate_zones_accounting (gridcodes : list Z) :
  let counts := Labels.value_counts_sorted gridcodes in
  StronglySorted Z.lt (map fst counts)
  /\ (forall code, code ∈ map fst counts <-> code ∈ gridcodes)
  /\ Forall (fun cc => (1 <= snd cc)%nat) counts
  /\ list_sum (map snd counts) = length gridcodes
  /\ map (fun zone => snd (snd zone)) (Labels.climate_zones gridcodes)
     = map snd counts
  /\ map fst (Labels.climate_zones gridcodes) = map py_str (map fst counts).
Proof.
  cbv zeta. unfold Labels.climate_zones, Labels.value_counts_sorted.
  rewrite !map_map. cbn [fst snd]. rewrite map_id.
  split; [apply np_unique_sorted|].
  split; [intros code; apply elem_of_np_unique|].
  split; [|split; [|split; reflexivity]].
  - apply Forall_forall. intros [code count] Hin.
    apply list_elem_of_In, in_map_iff in Hin as (c & [= <- <-] & Hc). cbn.
    apply (proj2 (list_elem_of_In _ _)), (proj1 (elem_of_np_unique _ _)),
      (proj1 (list_elem_of_In _ _)), (proj1 (count_occ_In Z.eq_dec _ _)) in Hc.
    lia.
  - apply count_occ_sum.
    + apply StronglySorted_lt_NoDup, np_unique_sorted.
    + intros x Hx. apply list_elem_of_In, elem_of_np_unique.
      now apply list_elem_of_In.
Qed.

(** *** Keys *)

Lemma decimal_inj (n m : Z) : (0 <= n)%Z -> (0 <= m)%Z -> decimal n = decimal m -> n = m.
Proof.
  intros Hn Hm Heq. unfold decimal in Heq.
  assert (Hu : N.to_uint (Z.to_N n) = N.to_uint (Z.to_N m)).
  { assert (Hs : NilZero.uint_of_string (NilZero.string_of_uint (N.to_uint (Z.to_N n)))
                 = NilZero.uint_of_string (NilZero.string_of_uint (N.to_uint (Z.to_N m))))
      by now rewrite Heq.
    rewrite !NilZero.usu in Hs.
    - now injection Hs.
    - destruct (Z.to_N m); [discriminate|apply DecimalPos.Unsigned.to_uint_nonnil].
    - destruct (Z.to_N n); [discriminate|apply DecimalPos.Unsigned.to_uint_nonnil]. }
  apply DecimalN.Unsigned.to_uint_inj in Hu. lia.
Qed.

Lemma decimal_not_minus (n : Z) (s : string) : decimal n <> String "-" s.
Proof.
  unfold decimal. intros Heq.
  assert (Hs : NilZero.uint_of_string (NilZero.string_of_uint (N.to_uint (Z.to_N n)))
               = NilZero.uint_of_string (String "-" s)) by now rewrite Heq.
  rewrite NilZero.usu in Hs.
  - cbn in Hs. destruct (NilEmpty.uint_of_string s); discriminate.
  - destruct (Z.to_N n); [discriminate|apply DecimalPos.Unsigned.to_uint_nonnil].
Qed.

Lemma py_str_inj (n m : Z) : py_str n = py_str m -> n = m.
Proof.
  unfold py_str.
  destruct (Z.ltb_spec n 0) as [Hn|Hn], (Z.ltb_spec m 0) as [Hm|Hm]; cbn; intros Heq.
  - injection Heq as Heq. apply decimal_inj in Heq; lia.
  - symmetry in Heq. now apply decimal_not_minus in Heq.
  - now apply decimal_not_minus in Heq.
  - now apply decimal_inj.
Qed.

(** X16.  No class overwrites another in [metadata["climate_zones"]]: the
    keys [str(code)] of the entries written are pairwise distinct, since
    distinct codes print differently. *)
Theorem climate_zones_keys_distinct (gridcodes : list Z) :
  List.NoDup (map fst (Labels.climate_zones gridcodes))
  /\ forall n m, py_str n = py_str m -> n = m.
Proof.
  split; [|exact py_str_inj].
  unfold Labels.climate_zones, Labels.value_counts_sorted.
  rewrite !map_map. cbn [fst].
  apply List.NoDup_map_NoDup_ForallPairs.
  - intros n m _ _. apply py_str_inj.
  - apply StronglySorted_lt_NoDup, np_unique_sorted.
Qed.

(** ** The outcomes of [create_optimized_scientific_layout] *)

Lemma degenerate_window_Some (tif : option (Grid * Affine)) :
  degenerate_window tif -> tif <> None.
Proof. destruct tif; [discriminate|intros []]. Qed.

(** X18.  [create_optimized_scientific_layout] has three outcomes, told apart
    by the first three files of [tif_paths].  When none of them exists the
    function raises [UnboundLocalError] where the legend reads [y_offset].
    When the sites are asked for and one of them has a degenerate window, it
    raises [ZeroDivisionError] in the site loop, which stands outside every
    [try].  Otherwise the layout is drawn, with the static legend and one
    panel for each of the three files that exists, at the position of the
    file and with the zones of its class loop. *)
Theorem create_optimized_scientific_layout_outcomes
    (B : Backend) (tifs : list (option (Grid * Affine)))
    (show_sites show_labels : bool) :
  let files := take 3 tifs in
  (Forall (fun tif => tif = None) files ->
   Final.create_optimized_scientific_layout B tifs show_sites show_labels
   = Raise (UnboundLocalError "y_offset"))
  /\ (show_sites = true -> Exists degenerate_window files ->
      Final.create_optimized_scientific_layout B tifs show_sites show_labels
      = Raise ZeroDivisionError)
  /\ (Exists (fun tif => tif <> None) files ->
      (show_sites = true -> Forall (fun tif => ~ degenerate_window tif) files) ->
      exists layout,
        Final.create_optimized_scientific_layout B tifs show_sites show_labels
        = Ok layout
        /\ map (fun p => (Final.panel_index p, Final.panel_zones p))
             (Final.layout_panels layout)
           = omap (panel_of B) (enumerate files)
        /\ Final.layout_legend layout = Final.legend).
Proof.
  cbv zeta.
  pose proof (final_layout_cases B tifs show_sites show_labels) as Hcases.
  assert (Hclash : Forall (fun tif => tif = None) (take 3 tifs) ->
                   Exists degenerate_window (take 3 tifs) -> False).
  { intros Hnone Hex. apply Exists_exists in Hex as (tif & Hin & Hdeg).
    rewrite Forall_forall in Hnone.
    exact (degenerate_window_Some tif Hdeg (Hnone tif Hin)). }
  destruct (Final.create_optimized_scientific_layout B tifs show_sites show_labels)
    as [layout|e].
  - destruct Hcases as (Hlegend & Hpanels & Hsome & Hall).
    split; [intros Hnone; now destruct (Hsome Hnone)|]. split.
    + intros Hs Hex. apply Exists_exists in Hex as (tif & Hin & Hdeg).
      specialize (Hall Hs). rewrite Forall_forall in Hall.
      now destruct (Hall tif Hin).
    + intros _ _. exists layout. auto.
  - destruct Hcases as [[-> Hnone]|(-> & Hs & Hex)].
    + split; [reflexivity|]. split.
      * intros _ Hex. now destruct (Hclash Hnone Hex).
      * intros Hex _. apply Exists_exists in Hex as (tif & Hin & Hsome).
        rewrite Forall_forall in Hnone. now destruct (Hsome (Hnone tif Hin)).
    + split; [intros Hnone; now destruct (Hclash Hnone Hex)|].
      split; [reflexivity|].
      intros _ Hall. specialize (Hall Hs).
      apply Exists_exists in Hex as (tif & Hin & Hdeg).
      rewrite Forall_forall in Hall. now destruct (Hall tif Hin).
Qed.

(** A window with no row and no column is degenerate: with the sites the
    layout is not drawn, without them it has one panel with no path; and a
    missing first file leaves the second one in the second place. *)
Example layout_on_empty_window :
  Final.create_optimized_scientific_layout one_cell_backend
    [Some ([], degree_cells)] true true
  = Raise ZeroDivisionError
  /\ (exists layout,
        Final.create_optimized_scientific_layout one_cell_backend
          [Some ([], degree_cells)] false false
        = Ok layout
        /\ map Final.panel_index (Final.layout_panels layout) = [0%nat]
        /\ Final.layout_paths layout = [])
  /\ (exists layout,
        Final.create_optimized_scientific_layout one_cell_backend
          [None; Some ([[3%Z]], degree_cells)] true true
        = Ok layout
        /\ map Final.panel_index (Final.layout_panels layout) = [1%nat]
        /\ Final.drawn_classes layout = [3%Z]).
Proof.
  split; [vm_compute; reflexivity|].
  split; eexists; (split; [vm_compute; reflexivity|]); split; reflexivity.
Qed.

(** X19.  A panel that is drawn holds, after its border, the paths of its
    class loop and nothing else of that kind, for every choice of
    [show_sites] and [show_labels]; it has one marker per study site with
    [show_sites] and none without; it has a label box and a label per site
    only with both flags; the title box and the two title lines are always
    there.  With [show_sites] a panel is drawn only on a window that is not
    degenerate. *)
Theorem draw_panel_variants (B : Backend) (show_sites show_labels : bool)
    (i : nat) (data : Grid) (transform : Affine) (title_lines : string * string)
    (color : string) (p : Final.Panel) :
  Final.draw_panel B show_sites show_labels i data transform title_lines color
  = Ok p ->
  Final.panel_index p = i
  /\ Final.panel_zones p = Final.panel B data transform
  /\ element_paths (Final.panel_elements p)
     = drawn_paths (Final.panel B data transform)
  /\ count_elements is_circle (Final.panel_elements p)
     = (if show_sites then length study_sites else 0)%nat
  /\ count_elements is_text (Final.panel_elements p)
     = (2 + if show_sites && show_labels then length study_sites else 0)%nat
  /\ count_elements is_rect (Final.panel_elements p)
     = (2 + if show_sites && show_labels then length study_sites else 0)%nat
  /\ head (Final.panel_elements p) = Some (Final.panel_border i)
  /\ (show_sites = true -> ~ degenerate_window (Some (data, transform))).
Proof.
  intros Hp.
  assert (Hcase : show_sites = false \/ ~ degenerate_window (Some (data, transform))).
  { destruct show_sites; [|now left].
    destruct (degenerate_window_dec (Some (data, transform))) as [Hdeg|Hdeg];
      [|now right].
    rewrite (final_draw_panel_raises B show_labels i data transform title_lines
               color Hdeg) in Hp.
    discriminate. }
  destruct (final_draw_panel_ok B show_sites show_labels i data transform
              title_lines color Hcase)
    as (els & Hok & Hpaths & Hc & Ht & Hr & Hhead).
  rewrite Hok in Hp. injection Hp as <-. cbn [Final.panel_index Final.panel_zones
    Final.panel_elements].
  split; [reflexivity|]. split; [reflexivity|]. split; [exact Hpaths|].
  split; [exact Hc|]. split; [exact Ht|]. split; [exact Hr|].
  split; [exact Hhead|].
  intros Hs. destruct Hcase as [Hf|Hdeg]; [congruence|exact Hdeg].
Qed.

Lemma draw_panel_variants_witness :
  exists p,
    Final.draw_panel one_cell_backend true true 1 [[10%Z]] degree_cells
      ("Moderate Warming", "SSP1-2.6 2041-2070") "#f39c12"
    = Ok p
    /\ Final.panel_index p = 1%nat
    /\ Final.panel_zones p = Final.panel one_cell_backend [[10%Z]] degree_cells
    /\ element_paths (Final.panel_elements p)
       = drawn_paths (Final.panel one_cell_backend [[10%Z]] degree_cells)
    /\ count_elements is_circle (Final.panel_elements p) = length study_sites
    /\ count_elements is_text (Final.panel_elements p) = (2 + length study_sites)%nat
    /\ count_elements is_rect (Final.panel_elements p) = (2 + length study_sites)%nat
    /\ head (Final.panel_elements p) = Some (Final.panel_border 1)
    /\ (true = true -> ~ degenerate_window (Some ([[10%Z]], degree_cells))).
Proof.
  eexists. split; [vm_compute; reflexivity|].
  apply (draw_panel_variants one_cell_backend true true 1 [[10%Z]] degree_cells
           ("Moderate Warming", "SSP1-2.6 2041-2070") "#f39c12").
  vm_compute. reflexivity.
Defined.
